(** * YouTube Quiz Generator: the popup controller and the content script

    A shallow embedding of the extension's popup controller
    (class [YouTubeQuizGenerator]) and of the helpers of the content script
    ([content.js]), with the properties of the controller stated and proved
    over it.

    Conventions of the embedding:
    - a JavaScript string is the list of its UTF-16 code units ([list N]);
    - the DOM nodes the controller touches are fields of a record, an
      element's [style.display] is a [display], a [classList] is a list of
      class names without duplicates;
    - an [async] method is cut at its [await]: the part before it issues a
      request, the part after it is the handler run when the request
      settles;
    - [setTimeout] callbacks are entries of a timer queue. *)

From Stdlib Require Import NArith ZArith String Ascii List Bool Lia DecimalN.
From stdpp Require Import gmap list.
Import ListNotations.

Local Open Scope N_scope.

(** ** JavaScript strings *)

Module Js.

(** The code units of an ASCII literal. *)
Fixpoint js (s : string) : list N :=
  match s with
  | EmptyString => []
  | String c s' => N_of_ascii c :: js s'
  end.

(** WhiteSpace and LineTerminator code units: the class [\s] of a regular
    expression and the characters removed by [String.prototype.trim]. *)
Definition is_space (c : N) : bool :=
  (c =? 9) || (c =? 10) || (c =? 11) || (c =? 12) || (c =? 13) || (c =? 32)
  || (c =? 160) || (c =? 5760) || ((8192 <=? c) && (c <=? 8202))
  || (c =? 8232) || (c =? 8233) || (c =? 8239) || (c =? 8287)
  || (c =? 12288) || (c =? 65279).

Fixpoint trimStart (s : list N) : list N :=
  match s with
  | c :: s' => if is_space c then trimStart s' else s
  | [] => []
  end.

Definition trimEnd (s : list N) : list N := rev (trimStart (rev s)).

Definition trim (s : list N) : list N := trimEnd (trimStart s).

(** Truthiness of a string: only the empty string is falsy. *)
Definition truthy (s : list N) : bool :=
  match s with [] => false | _ => true end.

Fixpoint eqb (a b : list N) : bool :=
  match a, b with
  | [], [] => true
  | x :: a', y :: b' => (x =? y) && eqb a' b'
  | _, _ => false
  end.

(** *** The fragment of regular expressions the sources use

    A pattern is a sequence of atoms: a literal code unit, a greedy star
    over a character class, and the end anchor [$] (no [m] flag). *)

Inductive atom :=
| Lit (c : N)
| Star (cls : N -> bool)
| EndAnchor.

(** Backtracking match of a pattern at the head of [s]; the result is what
    is left of [s] after the match. A star takes as many characters as it
    can and gives them back one at a time when the rest fails. *)
Fixpoint match_here (r : list atom) : list N -> option (list N) :=
  match r with
  | [] => fun s => Some s
  | Lit c :: r' => fun s =>
      match s with
      | x :: s' => if x =? c then match_here r' s' else None
      | [] => None
      end
  | EndAnchor :: r' => fun s =>
      match s with
      | [] => match_here r' []
      | _ :: _ => None
      end
  | Star cls :: r' =>
      fix star (s : list N) : option (list N) :=
        match s with
        | x :: s' =>
            if cls x then
              match star s' with
              | Some k => Some k
              | None => match_here r' s
              end
            else match_here r' s
        | [] => match_here r' []
        end
  end.

(** [s.replace(/r/, repl)] without the [g] flag and with a replacement
    that has no [$] pattern: the leftmost match is replaced, a string
    without a match is returned as it is. *)
Fixpoint replace (r : list atom) (repl : list N) (s : list N) : list N :=
  match match_here r s with
  | Some rest => repl ++ rest
  | None =>
      match s with
      | [] => []
      | c :: s' => c :: replace r repl s'
      end
  end.

Definition lits (s : list N) : list atom := map Lit s.

End Js.

Import Js.

(** ** Title clean-up *)

Module Title.

Definition hyphen : N := 45.
Definition YouTube : list N := js "YouTube".

(** The pattern [/\s*-\s*YouTube$/]. *)
Definition suffix_re : list atom :=
  Star is_space :: Lit hyphen :: Star is_space :: lits YouTube ++ [EndAnchor].

(** popup: [title.replace(/\s*-\s*YouTube$/, '')] in [extractVideoInfo]. *)
Definition cleanTitle (title : list N) : list N :=
  replace suffix_re [] title.

(** content script: [title.replace(/\s*-\s*YouTube$/, '').trim()] in
    [extractVideoInfoFromPage]. *)
Definition cleanTitle_content (title : list N) : list N :=
  trim (replace suffix_re [] title).

End Title.

(** ** URLs *)

Module Url.

(** What the controller reads of a parsed [URL] object. [searchParams] is
    the list of name/value pairs in the order of the query string. *)
Record URL := {
  hostname : list N;
  pathname : list N;
  searchParams : list (list N * list N)
}.

(** [searchParams.has(name)] *)
Definition has (name : list N) (ps : list (list N * list N)) : bool :=
  existsb (fun p => eqb (fst p) name) ps.

(** [searchParams.get(name)]: the value of the first pair with that name,
    [null] when there is none. *)
Fixpoint get (name : list N) (ps : list (list N * list N)) : option (list N) :=
  match ps with
  | [] => None
  | (n, v) :: ps' => if eqb n name then Some v else get name ps'
  end.

(** *** A parser for plain absolute http(s) URLs

    [new URL(s)] is the browser's. The controller's functions below take
    the parser as an argument, and the theorems hold for every parser.
    [parse] stands for the browser's parser in the examples only: it
    agrees with it on the inputs of the shape
    [http(s)://host/path?query#fragment] written with lower-case
    letters, digits and [. - _ / ? = & #], with no credentials, port,
    escape, [+] or dot segment in them. On the other inputs it does not
    follow the browser: it keeps dot segments and [+], and answers
    [None] for the other schemes that the browser accepts. *)

Definition slash : N := 47.
Definition question : N := 63.
Definition hash : N := 35.
Definition ampersand : N := 38.
Definition equals : N := 61.

Fixpoint stripPrefix (p s : list N) : option (list N) :=
  match p, s with
  | [], _ => Some s
  | x :: p', y :: s' => if x =? y then stripPrefix p' s' else None
  | _ :: _, [] => None
  end.

(** Split at the first code unit that satisfies [stop] (kept in the
    second part). *)
Fixpoint span_until (stop : N -> bool) (s : list N) : list N * list N :=
  match s with
  | [] => ([], [])
  | c :: s' =>
      if stop c then ([], s)
      else let '(a, b) := span_until stop s' in (c :: a, b)
  end.

(** Split on every occurrence of [sep]. *)
Fixpoint split_on (sep : N) (s : list N) : list (list N) :=
  match s with
  | [] => [[]]
  | c :: s' =>
      match split_on sep s' with
      | piece :: pieces =>
          if c =? sep then [] :: piece :: pieces else (c :: piece) :: pieces
      | [] => [[c]]
      end
  end.

Definition parse_pair (piece : list N) : list N * list N :=
  let '(n, v) := span_until (N.eqb equals) piece in (n, tl v).

Definition parse_query (q : list N) : list (list N * list N) :=
  map parse_pair (List.filter truthy (split_on ampersand q)).

Definition parse_after_scheme (s : list N) : option URL :=
  let '(host, rest) :=
    span_until (fun c => (c =? slash) || (c =? question) || (c =? hash)) s in
  let '(path, rest') :=
    span_until (fun c => (c =? question) || (c =? hash)) rest in
  let '(query, _) := span_until (N.eqb hash) (tl rest') in
  if truthy host then
    Some {| hostname := host;
            pathname := if truthy path then path else [slash];
            searchParams :=
              match rest' with
              | c :: _ => if c =? question then parse_query query else []
              | [] => []
              end |}
  else None.

Definition parse (s : list N) : option URL :=
  match stripPrefix (js "https://") s with
  | Some rest => parse_after_scheme rest
  | None =>
      match stripPrefix (js "http://") s with
      | Some rest => parse_after_scheme rest
      | None => None
      end
  end.

End Url.

(** ** Resolving the video of the active tab *)

Module Video.
Import Url.

Record VideoInfo := {
  videoId : list N;
  videoUrl : list N;
  title : list N;
  fullUrl : list N
}.

Section WithParser.

(** [new URL(url)]: [None] when the constructor throws. *)
Variable newURL : list N -> option URL.

(** popup: [isYouTubeVideoPage(url)] *)
Definition isYouTubeVideoPage (url : list N) : bool :=
  if negb (truthy url) then false
  else
    match newURL url with
    | Some urlObj =>
        eqb (hostname urlObj) (js "www.youtube.com")
        && eqb (pathname urlObj) (js "/watch")
        && has (js "v") (searchParams urlObj)
    | None => false
    end.

(** content script: [isValidYouTubeVideoPage()], on [window.location.href] *)
Definition isValidYouTubeVideoPage (href : list N) : bool :=
  match newURL href with
  | Some urlObj =>
      eqb (hostname urlObj) (js "www.youtube.com")
      && eqb (pathname urlObj) (js "/watch")
      && has (js "v") (searchParams urlObj)
  | None => false
  end.

(** popup: [extractVideoInfo(url, title)]; [None] is [null]. *)
Definition extractVideoInfo (url title : list N) : option VideoInfo :=
  match newURL url with
  | Some urlObj =>
      match get (js "v") (searchParams urlObj) with
      | Some videoId =>
          if negb (truthy videoId) then None
          else
            let cleanTitle := Title.cleanTitle title in
            Some {| videoId := videoId;
                    videoUrl := url;
                    title := cleanTitle;
                    fullUrl := url |}
      | None => None
      end
  | None => None
  end.

End WithParser.

End Video.

(** ** Timestamps *)

Module Timestamp.

Definition zero_digit : N := 48.
Definition colon : N := 58.

Fixpoint digits_of_uint (d : Decimal.uint) : list N :=
  match d with
  | Decimal.Nil => []
  | Decimal.D0 d' => 48 :: digits_of_uint d'
  | Decimal.D1 d' => 49 :: digits_of_uint d'
  | Decimal.D2 d' => 50 :: digits_of_uint d'
  | Decimal.D3 d' => 51 :: digits_of_uint d'
  | Decimal.D4 d' => 52 :: digits_of_uint d'
  | Decimal.D5 d' => 53 :: digits_of_uint d'
  | Decimal.D6 d' => 54 :: digits_of_uint d'
  | Decimal.D7 d' => 55 :: digits_of_uint d'
  | Decimal.D8 d' => 56 :: digits_of_uint d'
  | Decimal.D9 d' => 57 :: digits_of_uint d'
  end.

(** [n.toString()] for a non-negative integer below 2^53, where every
    integer is a number of the language and its numeral is the decimal
    one. *)
Definition toString (n : N) : list N := digits_of_uint (N.to_uint n).

(** [s.padStart(targetLength, padString)]: the pad string is repeated and
    cut to fill the missing length. *)
Fixpoint repeat_to (fuel : nat) (pad : list N) (n : nat) : list N :=
  match fuel with
  | O => []
  | S fuel' =>
      if (n <=? length pad)%nat then firstn n pad
      else pad ++ repeat_to fuel' pad (n - length pad)
  end.

Definition padStart (targetLength : nat) (padString : list N) (s : list N)
  : list N :=
  if (targetLength <=? length s)%nat then s
  else
    match padString with
    | [] => s
    | _ :: _ =>
        let missing := (targetLength - length s)%nat in
        repeat_to (S missing) padString missing ++ s
    end.

(** *** Numbers

    A number of the language is a double. The values met here are the
    non-negative integers among them, written as the [N] they denote;
    [None] stands for [Infinity]. *)

(** Rounding to the nearest, ties to the even mantissa: [q] is the
    mantissa cut off, [r] the remainder and [d] the divisor. *)
Definition round_up (q r d : N) : N :=
  if (d <? 2 * r) || ((d =? 2 * r) && N.odd q) then q + 1 else q.

(** The number that an integer of the answer denotes (what [JSON.parse]
    gives for its numeral): itself below 2^53, the nearest double with
    a mantissa of 53 bits above, [Infinity] from 2^1024 - 2^970 on. *)
Definition to_double (n : N) : option N :=
  if n <? 2 ^ 53 then Some n
  else
    let k := N.log2 n - 52 in
    let v := round_up (n / 2 ^ k) (n mod 2 ^ k) (2 ^ k) * 2 ^ k in
    if v <? 2 ^ 1024 then Some v else None.

Definition is_double (v n : N) : bool :=
  match to_double n with
  | Some w => w =? v
  | None => false
  end.

(** [Math.floor(v / d)] for a number [v] that is a non-negative integer
    and a divisor [d] from 1 to 4096: the quotient is first rounded to a
    double (its mantissa [m] of 53 bits is found on [v] scaled by 2^64),
    then floored. *)
Definition floor_quotient (v d : N) : N :=
  if v =? 0 then 0
  else
    let s := v * 2 ^ 64 in
    let k := N.log2 (s / d) - 52 in
    let m := round_up (s / (d * 2 ^ k)) (s mod (d * 2 ^ k)) (d * 2 ^ k) in
    m * 2 ^ k / 2 ^ 64.

Definition distance (a b : N) : N := if a <? b then b - a else a - b.

(** Of the multiples of [scale] that denote the number [v], the nearest
    to [v] (the one with the even digits, when two are as near). *)
Definition nearest_of (v scale : N) : option N :=
  let low := v / scale * scale in
  let high := low + scale in
  match is_double v low, is_double v high with
  | false, false => None
  | true, false => Some low
  | false, true => Some high
  | true, true =>
      if distance low v <? distance high v then Some low
      else if distance high v <? distance low v then Some high
      else if N.even (low / scale) then Some low
      else Some high
  end.

(** The integer with the fewest significant digits, [k] or more, that
    denotes the number [v]; seventeen digits always do. *)
Fixpoint shortest (fuel k : nat) (v : N) : N :=
  match fuel with
  | O => v
  | S fuel' =>
      match nearest_of v (10 ^ N.of_nat (length (toString v) - k)) with
      | Some c => c
      | None => shortest fuel' (S k) v
      end
  end.

Fixpoint drop_zeros (ds : list N) : list N :=
  match ds with
  | 48 :: ds' => drop_zeros ds'
  | _ => ds
  end.

(** [v.toString()] for a number [v] that is a non-negative integer: the
    decimal numeral below 2^53; above, the shortest digits that denote
    [v], followed by zeros up to twenty-one digits and in exponent
    notation beyond. *)
Definition Number_toString (v : N) : list N :=
  if v <? 2 ^ 53 then toString v
  else
    let ds := toString (shortest 17 1 v) in
    let n := length ds in
    if (n <=? 21)%nat then ds
    else
      match rev (drop_zeros (rev ds)) with
      | [] => ds
      | [d] => d :: js "e+" ++ toString (N.of_nat (n - 1))
      | d :: rest =>
          d :: js "." ++ rest ++ js "e+" ++ toString (N.of_nat (n - 1))
      end.

(** [formatTimestamp(seconds)], for the non-negative integer [seconds]
    of the answer. The arithmetic is that of the doubles: the division
    by sixty rounds, [%] is exact, and [Infinity % 60] is [NaN]. *)
Definition formatTimestamp (seconds : N) : list N :=
  match to_double seconds with
  | None => js "Infinity:NaN"
  | Some v =>
      let minutes := floor_quotient v 60 in
      let remainingSeconds := v mod 60 in
      Number_toString minutes ++ [colon]
        ++ padStart 2 (js "0") (Number_toString remainingSeconds)
  end.

End Timestamp.

(** ** The popup controller *)

Module Popup.
Import Url Video.

Local Open Scope string_scope.
Local Open Scope list_scope.

(** *** Data received from the backend *)

Record Question := {
  question : list N;
  options : list (list N);
  correct_answer : Z
}.

Record QuizData := { questions : list Question }.

Record Topic := { topic : list N; timestamp : N }.

(** The body of a 2xx answer, by endpoint. The fields are typed as the
    backend documents them ([correct_answer] is an index); a handler that
    is given the body of another endpoint is not modelled. *)
Inductive json :=
| JQuiz (quiz : QuizData)
| JVerify
| JSummary (summary : list N)
| JTopics (topics : list Topic)
| JChat (answer : list N).

(** How a [fetch] ends inside [makeApiCall]. *)
Inductive fetch_outcome :=
| NetworkError (message : list N)
| HttpError (status : N)
| BadJson (message : list N)
| Ok (response : json).

(** *** The DOM of the popup *)

Inductive display_value := DisplayBlock | DisplayNone.

Inductive pointer_events := PointerUnset | PointerAuto | PointerNone.

Definition display_eqb (a b : display_value) : bool :=
  match a, b with
  | DisplayBlock, DisplayBlock | DisplayNone, DisplayNone => true
  | _, _ => false
  end.

Definition visible (d : display_value) : bool := display_eqb d DisplayBlock.

(** [classList.add] and [classList.remove] *)
Definition classList_contains (c : string) (cl : list string) : bool :=
  existsb (String.eqb c) cl.

Definition classList_add (c : string) (cl : list string) : list string :=
  if classList_contains c cl then cl else cl ++ [c].

Definition classList_remove (c : string) (cl : list string) : list string :=
  List.filter (fun x => negb (String.eqb c x)) cl.

Record Banner := {
  banner_text : list N;
  banner_display : display_value
}.

Definition set_banner_text (v : list N) (r : Banner) : Banner :=
  {| banner_text := v;
     banner_display := banner_display r |}.
Definition set_banner_display (v : display_value) (r : Banner) : Banner :=
  {| banner_text := banner_text r;
     banner_display := v |}.

Record Notifications := {
  errorMessage : Banner;
  successMessage : Banner
}.

Definition set_errorMessage (v : Banner) (r : Notifications) : Notifications :=
  {| errorMessage := v;
     successMessage := successMessage r |}.
Definition set_successMessage (v : Banner) (r : Notifications) : Notifications :=
  {| errorMessage := errorMessage r;
     successMessage := v |}.

Record Panels := {
  results : display_value;
  quizSection : display_value;
  summarySection : display_value;
  topicsSection : display_value;
  chatSection : display_value
}.

Definition set_results (v : display_value) (r : Panels) : Panels :=
  {| results := v;
     quizSection := quizSection r;
     summarySection := summarySection r;
     topicsSection := topicsSection r;
     chatSection := chatSection r |}.
Definition set_quizSection (v : display_value) (r : Panels) : Panels :=
  {| results := results r;
     quizSection := v;
     summarySection := summarySection r;
     topicsSection := topicsSection r;
     chatSection := chatSection r |}.
Definition set_summarySection (v : display_value) (r : Panels) : Panels :=
  {| results := results r;
     quizSection := quizSection r;
     summarySection := v;
     topicsSection := topicsSection r;
     chatSection := chatSection r |}.
Definition set_topicsSection (v : display_value) (r : Panels) : Panels :=
  {| results := results r;
     quizSection := quizSection r;
     summarySection := summarySection r;
     topicsSection := v;
     chatSection := chatSection r |}.
Definition set_chatSection (v : display_value) (r : Panels) : Panels :=
  {| results := results r;
     quizSection := quizSection r;
     summarySection := summarySection r;
     topicsSection := topicsSection r;
     chatSection := v |}.

Record LoadingUi := {
  loading : display_value;
  controls_opacity : string;
  controls_pointerEvents : pointer_events
}.

Definition set_loading (v : display_value) (r : LoadingUi) : LoadingUi :=
  {| loading := v;
     controls_opacity := controls_opacity r;
     controls_pointerEvents := controls_pointerEvents r |}.
Definition set_controls_opacity (v : string) (r : LoadingUi) : LoadingUi :=
  {| loading := loading r;
     controls_opacity := v;
     controls_pointerEvents := controls_pointerEvents r |}.
Definition set_controls_pointerEvents (v : pointer_events) (r : LoadingUi) : LoadingUi :=
  {| loading := loading r;
     controls_opacity := controls_opacity r;
     controls_pointerEvents := v |}.

Record OptionEl := {
  option_text : list N;
  option_classes : list string;
  option_pointerEvents : pointer_events;
  data_questionIndex : nat;
  data_optionIndex : nat
}.

Definition set_option_text (v : list N) (r : OptionEl) : OptionEl :=
  {| option_text := v;
     option_classes := option_classes r;
     option_pointerEvents := option_pointerEvents r;
     data_questionIndex := data_questionIndex r;
     data_optionIndex := data_optionIndex r |}.
Definition set_option_classes (v : list string) (r : OptionEl) : OptionEl :=
  {| option_text := option_text r;
     option_classes := v;
     option_pointerEvents := option_pointerEvents r;
     data_questionIndex := data_questionIndex r;
     data_optionIndex := data_optionIndex r |}.
Definition set_option_pointerEvents (v : pointer_events) (r : OptionEl) : OptionEl :=
  {| option_text := option_text r;
     option_classes := option_classes r;
     option_pointerEvents := v;
     data_questionIndex := data_questionIndex r;
     data_optionIndex := data_optionIndex r |}.
Definition set_data_questionIndex (v : nat) (r : OptionEl) : OptionEl :=
  {| option_text := option_text r;
     option_classes := option_classes r;
     option_pointerEvents := option_pointerEvents r;
     data_questionIndex := v;
     data_optionIndex := data_optionIndex r |}.
Definition set_data_optionIndex (v : nat) (r : OptionEl) : OptionEl :=
  {| option_text := option_text r;
     option_classes := option_classes r;
     option_pointerEvents := option_pointerEvents r;
     data_questionIndex := data_questionIndex r;
     data_optionIndex := v |}.

Record QuestionEl := {
  question_text : list N;
  question_options : list OptionEl
}.

Definition set_question_text (v : list N) (r : QuestionEl) : QuestionEl :=
  {| question_text := v;
     question_options := question_options r |}.
Definition set_question_options (v : list OptionEl) (r : QuestionEl) : QuestionEl :=
  {| question_text := question_text r;
     question_options := v |}.

(** [quizContent] holds the question elements; they are the only
    elements of the popup with the class [question]. *)
Record QuizDom := {
  quizContent : list QuestionEl;
  submitQuizBtn : display_value
}.

Definition set_quizContent (v : list QuestionEl) (r : QuizDom) : QuizDom :=
  {| quizContent := v;
     submitQuizBtn := submitQuizBtn r |}.
Definition set_submitQuizBtn (v : display_value) (r : QuizDom) : QuizDom :=
  {| quizContent := quizContent r;
     submitQuizBtn := v |}.

(** A message of the chat: a [div] with its class and text. The nodes live
    in a store and are named by their key, so that the handler of a
    request can keep the placeholder it created. *)
Record ChatNode := {
  className : string;
  textContent : list N
}.

Definition set_className (v : string) (r : ChatNode) : ChatNode :=
  {| className := v;
     textContent := textContent r |}.
Definition set_textContent (v : list N) (r : ChatNode) : ChatNode :=
  {| className := className r;
     textContent := v |}.

Record ChatDom := {
  chatMessages : list nat;
  nodes : gmap nat ChatNode;
  chatInput_value : list N;
  chatInput_disabled : bool;
  sendChatBtn_disabled : bool
}.

Definition set_chatMessages (v : list nat) (r : ChatDom) : ChatDom :=
  {| chatMessages := v;
     nodes := nodes r;
     chatInput_value := chatInput_value r;
     chatInput_disabled := chatInput_disabled r;
     sendChatBtn_disabled := sendChatBtn_disabled r |}.
Definition set_nodes (v : gmap nat ChatNode) (r : ChatDom) : ChatDom :=
  {| chatMessages := chatMessages r;
     nodes := v;
     chatInput_value := chatInput_value r;
     chatInput_disabled := chatInput_disabled r;
     sendChatBtn_disabled := sendChatBtn_disabled r |}.
Definition set_chatInput_value (v : list N) (r : ChatDom) : ChatDom :=
  {| chatMessages := chatMessages r;
     nodes := nodes r;
     chatInput_value := v;
     chatInput_disabled := chatInput_disabled r;
     sendChatBtn_disabled := sendChatBtn_disabled r |}.
Definition set_chatInput_disabled (v : bool) (r : ChatDom) : ChatDom :=
  {| chatMessages := chatMessages r;
     nodes := nodes r;
     chatInput_value := chatInput_value r;
     chatInput_disabled := v;
     sendChatBtn_disabled := sendChatBtn_disabled r |}.
Definition set_sendChatBtn_disabled (v : bool) (r : ChatDom) : ChatDom :=
  {| chatMessages := chatMessages r;
     nodes := nodes r;
     chatInput_value := chatInput_value r;
     chatInput_disabled := chatInput_disabled r;
     sendChatBtn_disabled := v |}.

Record InfoDom := {
  videoTitle : list N;
  videoUrlText : list N;
  summaryContent : list N;
  topicsContent : list (list N);
  actionBtns_disabled : bool;
  activeDifficulty : list N
}.

Definition set_videoTitle (v : list N) (r : InfoDom) : InfoDom :=
  {| videoTitle := v;
     videoUrlText := videoUrlText r;
     summaryContent := summaryContent r;
     topicsContent := topicsContent r;
     actionBtns_disabled := actionBtns_disabled r;
     activeDifficulty := activeDifficulty r |}.
Definition set_videoUrlText (v : list N) (r : InfoDom) : InfoDom :=
  {| videoTitle := videoTitle r;
     videoUrlText := v;
     summaryContent := summaryContent r;
     topicsContent := topicsContent r;
     actionBtns_disabled := actionBtns_disabled r;
     activeDifficulty := activeDifficulty r |}.
Definition set_summaryContent (v : list N) (r : InfoDom) : InfoDom :=
  {| videoTitle := videoTitle r;
     videoUrlText := videoUrlText r;
     summaryContent := v;
     topicsContent := topicsContent r;
     actionBtns_disabled := actionBtns_disabled r;
     activeDifficulty := activeDifficulty r |}.
Definition set_topicsContent (v : list (list N)) (r : InfoDom) : InfoDom :=
  {| videoTitle := videoTitle r;
     videoUrlText := videoUrlText r;
     summaryContent := summaryContent r;
     topicsContent := v;
     actionBtns_disabled := actionBtns_disabled r;
     activeDifficulty := activeDifficulty r |}.
Definition set_actionBtns_disabled (v : bool) (r : InfoDom) : InfoDom :=
  {| videoTitle := videoTitle r;
     videoUrlText := videoUrlText r;
     summaryContent := summaryContent r;
     topicsContent := topicsContent r;
     actionBtns_disabled := v;
     activeDifficulty := activeDifficulty r |}.
Definition set_activeDifficulty (v : list N) (r : InfoDom) : InfoDom :=
  {| videoTitle := videoTitle r;
     videoUrlText := videoUrlText r;
     summaryContent := summaryContent r;
     topicsContent := topicsContent r;
     actionBtns_disabled := actionBtns_disabled r;
     activeDifficulty := v |}.

Record Dom := {
  notes : Notifications;
  panels : Panels;
  loadingUi : LoadingUi;
  quiz : QuizDom;
  chat : ChatDom;
  info : InfoDom
}.

Definition set_notes (v : Notifications) (r : Dom) : Dom :=
  {| notes := v;
     panels := panels r;
     loadingUi := loadingUi r;
     quiz := quiz r;
     chat := chat r;
     info := info r |}.
Definition set_panels (v : Panels) (r : Dom) : Dom :=
  {| notes := notes r;
     panels := v;
     loadingUi := loadingUi r;
     quiz := quiz r;
     chat := chat r;
     info := info r |}.
Definition set_loadingUi (v : LoadingUi) (r : Dom) : Dom :=
  {| notes := notes r;
     panels := panels r;
     loadingUi := v;
     quiz := quiz r;
     chat := chat r;
     info := info r |}.
Definition set_quiz (v : QuizDom) (r : Dom) : Dom :=
  {| notes := notes r;
     panels := panels r;
     loadingUi := loadingUi r;
     quiz := v;
     chat := chat r;
     info := info r |}.
Definition set_chat (v : ChatDom) (r : Dom) : Dom :=
  {| notes := notes r;
     panels := panels r;
     loadingUi := loadingUi r;
     quiz := quiz r;
     chat := v;
     info := info r |}.
Definition set_info (v : InfoDom) (r : Dom) : Dom :=
  {| notes := notes r;
     panels := panels r;
     loadingUi := loadingUi r;
     quiz := quiz r;
     chat := chat r;
     info := v |}.

(** *** Requests in flight and timers *)

Inductive body :=
| GenerateQuizBody (video_id video_url difficulty : list N) (num_questions : N)
| VerifyBody (video_id video_url : list N) (user_answers : gmap nat nat)
    (quiz_data : QuizData)
| VideoBody (video_id video_url : list N)
| ChatBody (video_id video_url question : list N).

(** The code that runs when the request settles; the chat handler holds
    the placeholder node it fills. *)
Inductive continuation :=
| AfterGenerateQuiz
| AfterVerify
| AfterSummary
| AfterTopics
| AfterChat (botMessageDiv : nat).

Record Request := {
  endpoint : string;
  request_body : body;
  and_then : continuation
}.

Inductive banner_kind := ErrorBanner | SuccessBanner.

Record Timer := { due : N; hides : banner_kind }.

Record Env := {
  timers : list Timer;
  now : N;
  inflight : list Request;
  tabsQueryPending : bool
}.

Definition set_timers (v : list Timer) (r : Env) : Env :=
  {| timers := v;
     now := now r;
     inflight := inflight r;
     tabsQueryPending := tabsQueryPending r |}.
Definition set_now (v : N) (r : Env) : Env :=
  {| timers := timers r;
     now := v;
     inflight := inflight r;
     tabsQueryPending := tabsQueryPending r |}.
Definition set_inflight (v : list Request) (r : Env) : Env :=
  {| timers := timers r;
     now := now r;
     inflight := v;
     tabsQueryPending := tabsQueryPending r |}.
Definition set_tabsQueryPending (v : bool) (r : Env) : Env :=
  {| timers := timers r;
     now := now r;
     inflight := inflight r;
     tabsQueryPending := v |}.

Record Controller := {
  currentVideo : option VideoInfo;
  selectedDifficulty : list N;
  quizData : option QuizData;
  userAnswers : gmap nat nat
}.

Definition set_currentVideo (v : option VideoInfo) (r : Controller) : Controller :=
  {| currentVideo := v;
     selectedDifficulty := selectedDifficulty r;
     quizData := quizData r;
     userAnswers := userAnswers r |}.
Definition set_selectedDifficulty (v : list N) (r : Controller) : Controller :=
  {| currentVideo := currentVideo r;
     selectedDifficulty := v;
     quizData := quizData r;
     userAnswers := userAnswers r |}.
Definition set_quizData (v : option QuizData) (r : Controller) : Controller :=
  {| currentVideo := currentVideo r;
     selectedDifficulty := selectedDifficulty r;
     quizData := v;
     userAnswers := userAnswers r |}.
Definition set_userAnswers (v : gmap nat nat) (r : Controller) : Controller :=
  {| currentVideo := currentVideo r;
     selectedDifficulty := selectedDifficulty r;
     quizData := quizData r;
     userAnswers := v |}.

Record State := {
  this : Controller;
  document : Dom;
  env : Env
}.

Definition set_this (v : Controller) (r : State) : State :=
  {| this := v;
     document := document r;
     env := env r |}.
Definition set_document (v : Dom) (r : State) : State :=
  {| this := this r;
     document := v;
     env := env r |}.
Definition set_env (v : Env) (r : State) : State :=
  {| this := this r;
     document := document r;
     env := v |}.

(** *** Updating the parts of the state *)

Definition on_this (f : Controller -> Controller) (st : State) : State :=
  set_this (f (this st)) st.
Definition on_dom (f : Dom -> Dom) (st : State) : State :=
  set_document (f (document st)) st.
Definition on_env (f : Env -> Env) (st : State) : State :=
  set_env (f (env st)) st.
Definition on_notes (f : Notifications -> Notifications) : State -> State :=
  on_dom (fun d => set_notes (f (notes d)) d).
Definition on_panels (f : Panels -> Panels) : State -> State :=
  on_dom (fun d => set_panels (f (panels d)) d).
Definition on_quiz (f : QuizDom -> QuizDom) : State -> State :=
  on_dom (fun d => set_quiz (f (quiz d)) d).
Definition on_chat (f : ChatDom -> ChatDom) : State -> State :=
  on_dom (fun d => set_chat (f (chat d)) d).
Definition on_info (f : InfoDom -> InfoDom) : State -> State :=
  on_dom (fun d => set_info (f (info d)) d).

(** *** Notifications *)

(** [setTimeout(() => { <banner>.style.display = 'none' }, delay)] *)
Definition setTimeout (banner : banner_kind) (delay : N) : State -> State :=
  on_env (fun e =>
    set_timers (timers e ++ [{| due := now e + delay; hides := banner |}]) e).

Definition hide (b : Banner) : Banner := set_banner_display DisplayNone b.

Definition showError (message : list N) (st : State) : State :=
  let st := on_notes (set_errorMessage
              {| banner_text := message; banner_display := DisplayBlock |}) st in
  let st := on_notes (fun n => set_successMessage (hide (successMessage n)) n) st in
  setTimeout ErrorBanner 5000 st.

Definition showSuccess (message : list N) (st : State) : State :=
  let st := on_notes (set_successMessage
              {| banner_text := message; banner_display := DisplayBlock |}) st in
  let st := on_notes (fun n => set_errorMessage (hide (errorMessage n)) n) st in
  setTimeout SuccessBanner 3000 st.

(** The callback of a timer. *)
Definition timer_callback (banner : banner_kind) : State -> State :=
  match banner with
  | ErrorBanner =>
      on_notes (fun n => set_errorMessage (hide (errorMessage n)) n)
  | SuccessBanner =>
      on_notes (fun n => set_successMessage (hide (successMessage n)) n)
  end.

(** *** Loading indicator and controls *)

Definition showLoading (show : bool) : State -> State :=
  on_dom (set_loadingUi
    (if show then
       {| loading := DisplayBlock; controls_opacity := "0.5";
          controls_pointerEvents := PointerNone |}
     else
       {| loading := DisplayNone; controls_opacity := "1";
          controls_pointerEvents := PointerAuto |})).

Definition disableControls : State -> State :=
  on_info (set_actionBtns_disabled true).

Definition enableControls : State -> State :=
  on_info (set_actionBtns_disabled false).

Definition updateVideoInfo (videoInfo : VideoInfo) : State -> State :=
  on_info (fun i => set_videoUrlText (videoUrl videoInfo)
                      (set_videoTitle (title videoInfo) i)).

(** *** The backend *)

(** What [makeApiCall] returns ([inl]) or throws ([inr], the message of
    the error) for each way the [fetch] can end. *)
Definition makeApiCall_result (o : fetch_outcome) : json + list N :=
  match o with
  | Ok response => inl response
  | NetworkError message => inr (js "Failed to connect to backend: " ++ message)
  | HttpError status =>
      inr (js "Failed to connect to backend: "
           ++ js "HTTP error! status: " ++ Timestamp.toString status)
  | BadJson message => inr (js "Failed to connect to backend: " ++ message)
  end.

(** The call itself: the request leaves and the method is suspended. *)
Definition makeApiCall (endpoint : string) (data : body) (k : continuation)
  : State -> State :=
  on_env (fun e =>
    set_inflight (inflight e ++ [{| endpoint := endpoint; request_body := data;
                                    and_then := k |}]) e).

(** The message of the [TypeError] of reading a property of [null] or
    [undefined] (as Chrome words it). *)
Definition type_error (of_value property : string) : list N :=
  js "Cannot read properties of " ++ js of_value ++ js " (reading '"
  ++ js property ++ js "')".

(** *** Panels *)

Definition show_quiz_panel : State -> State :=
  on_panels (fun p =>
    set_chatSection DisplayNone
      (set_topicsSection DisplayNone
        (set_summarySection DisplayNone
          (set_quizSection DisplayBlock (set_results DisplayBlock p))))).

Definition show_summary_panel : State -> State :=
  on_panels (fun p =>
    set_chatSection DisplayNone
      (set_topicsSection DisplayNone
        (set_quizSection DisplayNone
          (set_summarySection DisplayBlock (set_results DisplayBlock p))))).

Definition show_topics_panel : State -> State :=
  on_panels (fun p =>
    set_chatSection DisplayNone
      (set_summarySection DisplayNone
        (set_quizSection DisplayNone
          (set_topicsSection DisplayBlock (set_results DisplayBlock p))))).

Definition show_chat_panel : State -> State :=
  on_panels (fun p =>
    set_topicsSection DisplayNone
      (set_summarySection DisplayNone
        (set_quizSection DisplayNone
          (set_chatSection DisplayBlock (set_results DisplayBlock p))))).

(** *** Quiz *)

Definition render_option (index optionIndex : nat) (option : list N)
  : OptionEl :=
  {| option_text := option;
     option_classes := ["option"];
     option_pointerEvents := PointerUnset;
     data_questionIndex := index;
     data_optionIndex := optionIndex |}.

Definition render_question (index : nat) (q : Question) : QuestionEl :=
  {| question_text :=
       Timestamp.toString (N.of_nat (index + 1)) ++ js ". " ++ question q;
     question_options := imap (render_option index) (options q) |}.

Definition displayQuiz (quizData : QuizData) (st : State) : State :=
  let st := on_quiz (set_quizContent []) st in
  let st := on_this (set_userAnswers ∅) st in
  let st := on_quiz (set_quizContent
              (imap render_question (questions quizData))) st in
  show_quiz_panel st.

(** The click listener of the option [optionIndex] of question [index]. *)
Definition select_in (optionIndex : nat) (questionDiv : QuestionEl)
  : QuestionEl :=
  let cleared :=
    map (fun opt =>
           set_option_classes
             (classList_remove "selected" (option_classes opt)) opt)
        (question_options questionDiv) in
  set_question_options
    (alter (fun opt =>
              set_option_classes
                (classList_add "selected" (option_classes opt)) opt)
           optionIndex cleared)
    questionDiv.

Definition option_click (index optionIndex : nat) (st : State) : State :=
  let st := on_quiz (fun q =>
              set_quizContent
                (alter (select_in optionIndex) index (quizContent q)) q) st in
  on_this (fun c => set_userAnswers (<[index := optionIndex]> (userAnswers c)) c)
    st.

(** [optionIndex === userAnswer], where [userAnswer] is [undefined] for a
    question without an answer. *)
Definition is_user_answer (optionIndex : nat) (userAnswer : option nat) : bool :=
  match userAnswer with
  | Some u => Nat.eqb optionIndex u
  | None => false
  end.

(** [userAnswer !== correctAnswer] *)
Definition differs_from (userAnswer : option nat) (correctAnswer : Z) : bool :=
  match userAnswer with
  | Some u => negb (Z.of_nat u =? correctAnswer)%Z
  | None => true
  end.

Definition mark_option (correctAnswer : Z) (userAnswer : option nat)
    (optionIndex : nat) (option : OptionEl) : OptionEl :=
  let option := set_option_pointerEvents PointerNone option in
  if (Z.of_nat optionIndex =? correctAnswer)%Z then
    set_option_classes (classList_add "correct" (option_classes option)) option
  else if is_user_answer optionIndex userAnswer
          && differs_from userAnswer correctAnswer then
    set_option_classes (classList_add "incorrect" (option_classes option)) option
  else option.

(** The loop of [displayQuizResults] over the [.question] elements, from
    [index] on. It stops with the message of the [TypeError] at a question
    element that has no entry in [quizData.questions]; the elements before
    it are already marked. *)
Fixpoint mark_questions (quizData : option QuizData) (answers : gmap nat nat)
    (index : nat) (els : list QuestionEl)
  : list QuestionEl * option (list N) :=
  match els with
  | [] => ([], None)
  | el :: els' =>
      match quizData with
      | None => (el :: els', Some (type_error "null" "questions"))
      | Some data =>
          match questions data !! index with
          | None =>
              (el :: els', Some (type_error "undefined" "correct_answer"))
          | Some q =>
              let correctAnswer := correct_answer q in
              let userAnswer := answers !! index in
              let el' :=
                set_question_options
                  (imap (mark_option correctAnswer userAnswer)
                        (question_options el)) el in
              let '(rest, thrown) :=
                mark_questions quizData answers (S index) els' in
              (el' :: rest, thrown)
          end
      end
  end.

(** [displayQuizResults(results)]: the new state and the error thrown, if
    any. The argument is not read. [document.querySelectorAll('.question')]
    gives the question elements of [quizContent]: the markup of the popup
    has no other element of that class, and the only other place where
    elements can appear is the text of the topics (see [displayTopics]),
    so that this holds on the runs whose topics are plain text. *)
Definition displayQuizResults (st : State) : State * option (list N) :=
  let '(els, thrown) :=
    mark_questions (quizData (this st)) (userAnswers (this st)) 0
      (quizContent (quiz (document st))) in
  let st := on_quiz (set_quizContent els) st in
  match thrown with
  | Some message => (st, Some message)
  | None => (on_quiz (set_submitQuizBtn DisplayNone) st, None)
  end.

Definition generateQuiz (st : State) : State :=
  match currentVideo (this st) with
  | None => showError (js "No video detected") st
  | Some video =>
      let st := showLoading true st in
      makeApiCall "/generate-quiz"
        (GenerateQuizBody (videoId video) (videoUrl video)
           (selectedDifficulty (this st)) 5)
        AfterGenerateQuiz st
  end.

Definition after_generateQuiz (o : fetch_outcome) (st : State) : option State :=
  match makeApiCall_result o with
  | inl (JQuiz response) =>
      let st := on_this (set_quizData (Some response)) st in
      let st := displayQuiz response st in
      let st := showSuccess (js "Quiz generated successfully!") st in
      Some (showLoading false st)
  | inl _ => None
  | inr message => Some (showLoading false (showError message st))
  end.

Definition submitQuiz (st : State) : State :=
  if match quizData (this st) with None => true | Some _ => false end
     || Nat.eqb (size (userAnswers (this st))) 0
  then
    showError (js "Please answer at least one question before submitting") st
  else
    let st := showLoading true st in
    match currentVideo (this st), quizData (this st) with
    | Some video, Some data =>
        makeApiCall "/verify-answers"
          (VerifyBody (videoId video) (videoUrl video)
             (userAnswers (this st)) data)
          AfterVerify st
    | _, _ =>
        showLoading false (showError (type_error "null" "videoId") st)
    end.

Definition after_verify (o : fetch_outcome) (st : State) : option State :=
  match makeApiCall_result o with
  | inl _ =>
      match displayQuizResults st with
      | (st, None) =>
          Some (showLoading false
                  (showSuccess (js "Quiz submitted successfully!") st))
      | (st, Some message) => Some (showLoading false (showError message st))
      end
  | inr message => Some (showLoading false (showError message st))
  end.

(** *** Summary and topics *)

Definition displaySummary (summary : list N) (st : State) : State :=
  let st := on_info (set_summaryContent summary) st in
  show_summary_panel st.

Definition generateSummary (st : State) : State :=
  match currentVideo (this st) with
  | None => showError (js "No video detected") st
  | Some video =>
      let st := showLoading true st in
      makeApiCall "/generate-summary"
        (VideoBody (videoId video) (videoUrl video)) AfterSummary st
  end.

Definition after_summary (o : fetch_outcome) (st : State) : option State :=
  match makeApiCall_result o with
  | inl (JSummary summary) =>
      let st := displaySummary summary st in
      let st := showSuccess (js "Summary generated successfully!") st in
      Some (showLoading false st)
  | inl _ => None
  | inr message => Some (showLoading false (showError message st))
  end.

Definition newline : N := 10.
Definition space : N := 32.

(** The [innerHTML] given to the [div] of a topic. *)
Definition topic_html (t : Topic) : list N :=
  [newline] ++ repeat space 16 ++ js "<strong>" ++ topic t ++ js "</strong> - "
  ++ Timestamp.formatTimestamp (timestamp t)
  ++ [newline] ++ repeat space 12.

(** [displayTopics(topics)]: [topicsContent] holds, for the [div] of each
    topic, the string assigned to its [innerHTML]. The text of the topic
    is not escaped: the browser makes a text node of it when it has no
    [<], and may make elements of it otherwise, which the document of
    this model does not hold. What is stated about the elements of the
    document is stated for the runs whose topics are plain text. *)
Definition displayTopics (topics : list Topic) (st : State) : State :=
  let st := on_info (set_topicsContent []) st in
  let st := on_info (set_topicsContent (map topic_html topics)) st in
  show_topics_panel st.

Definition extractTopics (st : State) : State :=
  match currentVideo (this st) with
  | None => showError (js "No video detected") st
  | Some video =>
      let st := showLoading true st in
      makeApiCall "/generate-topics"
        (VideoBody (videoId video) (videoUrl video)) AfterTopics st
  end.

Definition after_topics (o : fetch_outcome) (st : State) : option State :=
  match makeApiCall_result o with
  | inl (JTopics topics) =>
      let st := displayTopics topics st in
      let st := showSuccess (js "Topics extracted successfully!") st in
      Some (showLoading false st)
  | inl _ => None
  | inr message => Some (showLoading false (showError message st))
  end.

(** *** Chat *)

(** [document.createElement('div')] with a class and a text, appended to
    [chatMessages]; the result names the new node. *)
Definition append_message (node : ChatNode) (c : ChatDom) : nat * ChatDom :=
  let key := fresh (dom (nodes c)) in
  (key, set_chatMessages (chatMessages c ++ [key])
          (set_nodes (<[key := node]> (nodes c)) c)).

Definition addChatMessage (message : list N) (sender : string) : State -> State :=
  on_chat (fun c =>
    snd (append_message
           {| className := String.append "chat-message chat-" sender;
              textContent := message |} c)).

Definition set_text (key : nat) (text : list N) : State -> State :=
  on_chat (fun c => set_nodes (alter (set_textContent text) key (nodes c)) c).

Definition enable_chat_input : State -> State :=
  on_chat (fun c => set_sendChatBtn_disabled false (set_chatInput_disabled false c)).

Definition startChat (st : State) : State :=
  match currentVideo (this st) with
  | None => showError (js "No video detected") st
  | Some _ =>
      let st := show_chat_panel st in
      let st := on_chat (set_chatMessages []) st in
      showSuccess (js "Chat started! Ask questions about the video.") st
  end.

Definition sendChatMessage (st : State) : State :=
  let message := trim (chatInput_value (chat (document st))) in
  if negb (truthy message) then st
  else
    let st := addChatMessage message "user" st in
    let st := on_chat (set_chatInput_value []) st in
    let st := on_chat (set_chatInput_disabled true) st in
    let st := on_chat (set_sendChatBtn_disabled true) st in
    let '(botMessageDiv, c) :=
      append_message {| className := "chat-message chat-bot"; textContent := [] |}
        (chat (document st)) in
    let st := on_chat (fun _ => c) st in
    match currentVideo (this st) with
    | Some video =>
        makeApiCall "/chat"
          (ChatBody (videoId video) (videoUrl video) message)
          (AfterChat botMessageDiv) st
    | None =>
        let st := set_text botMessageDiv
                    (js "Sorry, I encountered an error: "
                     ++ type_error "null" "videoId") st in
        enable_chat_input st
    end.

Definition after_chat (botMessageDiv : nat) (o : fetch_outcome) (st : State)
  : option State :=
  match makeApiCall_result o with
  | inl (JChat answer) =>
      Some (enable_chat_input (set_text botMessageDiv answer st))
  | inl _ => None
  | inr message =>
      Some (enable_chat_input
              (set_text botMessageDiv
                 (js "Sorry, I encountered an error: " ++ message) st))
  end.

(** The chat as a reader sees it: the messages in document order, each
    with its position, its sender class and its text. *)
Definition transcript (st : State) : list (nat * ChatNode) :=
  imap (fun ordinal key =>
          (ordinal, default {| className := ""; textContent := [] |}
                      (nodes (chat (document st)) !! key)))
       (chatMessages (chat (document st))).

(** The chat requests in flight. *)
Definition is_chat_request (r : Request) : bool :=
  match and_then r with AfterChat _ => true | _ => false end.

Definition chat_inflight (st : State) : list Request :=
  List.filter is_chat_request (inflight (env st)).

(** *** Start-up and the event loop *)

Record Tab := { tab_url : list N; tab_title : list N }.

(** How [chrome.tabs.query] ends: rejected, or resolved with the active
    tab, if there is one. *)
Inductive tabs_outcome :=
| TabsRejected (message : list N)
| TabsResolved (tab : option Tab).

(** What the user, the timers and the network can do to the popup. *)
Inductive event :=
| Tick (dt : N)
| TimerFires (i : nat)
| TabsQueried (o : tabs_outcome)
| ClickDifficulty (difficulty : list N)
| ClickGenerateQuiz
| ClickGenerateSummary
| ClickExtractTopics
| ClickStartChat
| ClickSubmitQuiz
| ClickOption (index optionIndex : nat)
| TypeChat (text : list N)
| ClickSendChat
| PressEnterInChat
| FetchSettles (i : nat) (o : fetch_outcome).

(** [new YouTubeQuizGenerator()] on a freshly loaded popup document at
    time [t0]; [loadVideoInfo] waits for the tab. *)
Definition constructor (page : Dom) (t0 : N) : State :=
  {| this := {| currentVideo := None;
                selectedDifficulty := js "easy";
                quizData := None;
                userAnswers := ∅ |};
     document := page;
     env := {| timers := []; now := t0; inflight := [];
               tabsQueryPending := true |} |}.

Definition run_continuation (k : continuation) (o : fetch_outcome) (st : State)
  : option State :=
  match k with
  | AfterGenerateQuiz => after_generateQuiz o st
  | AfterVerify => after_verify o st
  | AfterSummary => after_summary o st
  | AfterTopics => after_topics o st
  | AfterChat botMessageDiv => after_chat botMessageDiv o st
  end.

(** Whether the option can be clicked: it exists and its
    [style.pointerEvents] is not ['none']. *)
Definition option_clickable (index optionIndex : nat) (st : State) : bool :=
  match quizContent (quiz (document st)) !! index with
  | Some el =>
      match question_options el !! optionIndex with
      | Some opt =>
          match option_pointerEvents opt with
          | PointerNone => false
          | _ => true
          end
      | None => false
      end
  | None => false
  end.

Section WithParser.

Variable newURL : list N -> option URL.

(** [loadVideoInfo], from the answer of [chrome.tabs.query] on. *)
Definition loadVideoInfo (o : tabs_outcome) (st : State) : State :=
  match o with
  | TabsRejected message =>
      showError (js "Error loading video information: " ++ message) st
  | TabsResolved None => showError (js "Unable to access current tab") st
  | TabsResolved (Some tab) =>
      if negb (isYouTubeVideoPage newURL (tab_url tab)) then
        disableControls
          (showError
             (js "Please navigate to a YouTube video page to use this extension")
             st)
      else
        match extractVideoInfo newURL (tab_url tab) (tab_title tab) with
        | None => showError (js "Unable to extract video information") st
        | Some videoInfo =>
            let st := on_this (set_currentVideo (Some videoInfo)) st in
            let st := updateVideoInfo videoInfo st in
            showSuccess (js "Video detected successfully!") st
        end
  end.

(** One turn of the event loop; [None] when the event cannot happen in
    the state. A disabled input takes no key and no text, a disabled
    button no click, an element with [pointer-events: none] no click; the
    buttons of the main actions are always taken as clickable. *)
Definition step (st : State) (e : event) : option State :=
  match e with
  | Tick dt => Some (on_env (fun v => set_now (now v + dt) v) st)
  | TimerFires i =>
      match timers (env st) !! i with
      | Some t =>
          if (due t <=? now (env st))%N then
            Some (timer_callback (hides t)
                    (on_env (fun v => set_timers (delete i (timers v)) v) st))
          else None
      | None => None
      end
  | TabsQueried o =>
      if tabsQueryPending (env st) then
        Some (loadVideoInfo o (on_env (set_tabsQueryPending false) st))
      else None
  | ClickDifficulty difficulty =>
      Some (on_this (set_selectedDifficulty difficulty)
              (on_info (set_activeDifficulty difficulty) st))
  | ClickGenerateQuiz => Some (generateQuiz st)
  | ClickGenerateSummary => Some (generateSummary st)
  | ClickExtractTopics => Some (extractTopics st)
  | ClickStartChat => Some (startChat st)
  | ClickSubmitQuiz => Some (submitQuiz st)
  | ClickOption index optionIndex =>
      if option_clickable index optionIndex st then
        Some (option_click index optionIndex st)
      else None
  | TypeChat text =>
      if chatInput_disabled (chat (document st)) then None
      else Some (on_chat (set_chatInput_value text) st)
  | ClickSendChat =>
      if sendChatBtn_disabled (chat (document st)) then None
      else Some (sendChatMessage st)
  | PressEnterInChat =>
      if chatInput_disabled (chat (document st)) then None
      else Some (sendChatMessage st)
  | FetchSettles i o =>
      match inflight (env st) !! i with
      | Some request =>
          run_continuation (and_then request) o
            (on_env (fun v => set_inflight (delete i (inflight v)) v) st)
      | None => None
      end
  end.

(** The states reached from [st] by a sequence of events. *)
Fixpoint run (st : State) (es : list event) : option State :=
  match es with
  | [] => Some st
  | e :: es' =>
      match step st e with
      | Some st' => run st' es'
      | None => None
      end
  end.

End WithParser.

End Popup.
(** ** The content script *)

Module Content.
Import Url.

Local Open Scope string_scope.
Local Open Scope list_scope.

(** What the script reads of an element. A property that the element
    does not have, or that is [null], is [None]. *)
Record Element := {
  el_textContent : option (list N);
  el_content : option (list N);
  el_innerText : option (list N)
}.

(** The page the script runs on: the parameters of [location.search],
    [location.href], the answers of [document.querySelector], and the
    clock read by [Date.now()]. *)
Record Page := {
  search : list (list N * list N);
  href : list N;
  querySelector : string -> option Element;
  clock : N
}.

(** Truthiness of a value that is a string or [undefined]. *)
Definition truthy_value (v : option (list N)) : bool :=
  match v with
  | Some s => truthy s
  | None => false
  end.

(** [a || b] *)
Definition or_else (a b : option (list N)) : option (list N) :=
  if truthy_value a then a else b.

(** An attribute selector [tag[name="value"]]. *)
Definition attribute_selector (tag name value : string) : string :=
  let quote := String (ascii_of_nat 34) EmptyString in
  String.concat EmptyString [tag; "["; name; "="; quote; value; quote; "]"].

Definition titleSelectors : list string :=
  [ "h1.ytd-video-primary-info-renderer";
    "h1.title.ytd-video-primary-info-renderer";
    "h1.ytd-watch-metadata";
    "h1.title";
    attribute_selector "meta" "property" "og:title";
    "title" ].

(** The loop over the selectors: [title] is what the variable holds on
    entry. *)
Fixpoint find_title (page : Page) (selectors : list string)
    (title : option (list N)) : option (list N) :=
  match selectors with
  | [] => title
  | selector :: rest =>
      match querySelector page selector with
      | Some element =>
          let title :=
            or_else (el_textContent element)
              (or_else (el_content element) (el_innerText element)) in
          if truthy_value title then title else find_title page rest title
      | None => find_title page rest title
      end
  end.

Record PageInfo := {
  videoId : list N;
  title : list N;
  videoUrl : list N;
  description : list N;
  channelName : list N;
  timestamp : N
}.

Inductive result :=
| Failure (error : list N)
| Info (info : PageInfo).

(** [e?.content || ''] and the like: the string when it is truthy, the
    empty string otherwise. *)
Definition text_or_empty (v : option (list N)) : list N :=
  match or_else v (Some []) with
  | Some s => s
  | None => []
  end.

(** [extractVideoInfoFromPage()]. Reading [replace] of an undefined
    title throws, and the handler answers with the second error. *)
Definition extractVideoInfoFromPage (page : Page) : result :=
  match get (js "v") (search page) with
  | None => Failure (js "No video ID found in URL")
  | Some videoId =>
      if negb (truthy videoId) then Failure (js "No video ID found in URL")
      else
        match find_title page titleSelectors (Some []) with
        | None => Failure (js "Failed to extract video information")
        | Some title =>
            let title := trim (replace Title.suffix_re [] title) in
            let videoUrl := href page in
            let description :=
              text_or_empty
                (match querySelector page
                         (attribute_selector "meta" "name" "description") with
                 | Some e => el_content e
                 | None => None
                 end) in
            let channelName :=
              text_or_empty
                (or_else
                   (match querySelector page "ytd-channel-name a" with
                    | Some e => el_textContent e
                    | None => None
                    end)
                   (match querySelector page ".ytd-channel-name" with
                    | Some e => el_textContent e
                    | None => None
                    end)) in
            Info {| videoId := videoId;
                    title := title;
                    videoUrl := videoUrl;
                    description := description;
                    channelName := channelName;
                    timestamp := clock page |}
        end
  end.

(** The listener of [chrome.runtime.onMessage]: what is sent back, if
    anything, for a request with the given [action]. *)
Definition onMessage (action : list N) (page : Page) : option result :=
  if eqb action (js "getVideoInfo") then Some (extractVideoInfoFromPage page)
  else None.

End Content.

(** ** A sample popup document

    The markup of the popup is not part of the sources. [page] is a
    document in which nothing is shown yet and every control is enabled;
    the statements below hold for every document and are run on this
    one. *)

Module Sample.
Import Popup Video.

Definition hidden_banner : Banner :=
  {| banner_text := []; banner_display := DisplayNone |}.

Definition page : Dom :=
  {| notes := {| errorMessage := hidden_banner; successMessage := hidden_banner |};
     panels := {| results := DisplayNone; quizSection := DisplayNone;
                  summarySection := DisplayNone; topicsSection := DisplayNone;
                  chatSection := DisplayNone |};
     loadingUi := {| loading := DisplayNone; controls_opacity := "1";
                     controls_pointerEvents := PointerUnset |};
     quiz := {| quizContent := []; submitQuizBtn := DisplayBlock |};
     chat := {| chatMessages := []; nodes := ∅; chatInput_value := [];
                chatInput_disabled := false; sendChatBtn_disabled := false |};
     info := {| videoTitle := []; videoUrlText := []; summaryContent := [];
                topicsContent := []; actionBtns_disabled := false;
                activeDifficulty := js "easy" |} |}.

Definition watch_page : list N :=
  js "https://www.youtube.com/watch?v=dQw4w9WgXcQ".

Definition tab : Tab :=
  {| tab_url := watch_page;
     tab_title := js "Induction explained - YouTube" |}.

(** The popup is opened on [tab] and [loadVideoInfo] resolves its video. *)
Definition opened : list event := [TabsQueried (TabsResolved (Some tab))].

Definition watching : State :=
  Eval vm_compute in
    default (constructor page 0) (run Url.parse (constructor page 0) opened).

Definition quiz_of_two : QuizData :=
  {| questions :=
       [ {| question := js "Which tactic closes a goal by computation?";
            options := [js "intros"; js "reflexivity"; js "split"];
            correct_answer := 1%Z |};
         {| question := js "Which command ends a proof?";
            options := [js "Qed"; js "Proof"];
            correct_answer := 0%Z |} ] |}.

(** The quiz is asked for, and the backend answers with [quiz_of_two]. *)
Definition asked : State := Eval vm_compute in generateQuiz watching.

Definition answered : State :=
  Eval vm_compute in
    default asked
      (step Url.parse asked (FetchSettles 0 (Ok (JQuiz quiz_of_two)))).

(** The user picks the third option of the first question and the first
    option of the second, and submits; the backend acknowledges. *)
Definition answering : list event :=
  opened
  ++ [ClickGenerateQuiz; FetchSettles 0 (Ok (JQuiz quiz_of_two));
      ClickOption 0 2; ClickOption 1 0; ClickSubmitQuiz].

Definition submitted : State :=
  Eval vm_compute in
    default watching (run Url.parse (constructor page 0) answering).

Definition verify_request : Request :=
  {| endpoint := "/verify-answers";
     request_body :=
       VerifyBody (js "dQw4w9WgXcQ") watch_page (userAnswers (this submitted))
         quiz_of_two;
     and_then := AfterVerify |}.

Definition graded : State :=
  Eval vm_compute in
    default submitted
      (step Url.parse submitted (FetchSettles 0 (Ok JVerify))).

Definition video : VideoInfo :=
  {| videoId := js "dQw4w9WgXcQ"; videoUrl := watch_page;
     title := js "Induction explained"; fullUrl := watch_page |}.

(** The chat is started and the user types " hi ", sends it, and the
    backend answers "hello". *)
Definition typing : list event :=
  opened ++ [ClickStartChat; TypeChat (js " hi ")].

Definition typed : State :=
  Eval vm_compute in
    default watching (run Url.parse (constructor page 0) typing).

Definition sent : State := Eval vm_compute in sendChatMessage typed.


(** A summary is asked for while the chat request is in flight, then the
    backend answers the chat. *)
Definition meanwhile : list event := [ClickGenerateSummary; Tick 100].

Definition waited : State :=
  Eval vm_compute in default sent (run Url.parse sent meanwhile).

Definition replied_later : State :=
  Eval vm_compute in
    default waited
      (step Url.parse waited (FetchSettles 0 (Ok (JChat (js "hello"))))).

(** The request of [asked]. *)
Definition quiz_request : Request :=
  {| endpoint := "/generate-quiz";
     request_body :=
       GenerateQuizBody (js "dQw4w9WgXcQ") watch_page (js "easy") 5;
     and_then := AfterGenerateQuiz |}.


(** The popup before the tab is known, with a question typed. *)
Definition early : State :=
  Eval vm_compute in
    default (constructor page 0)
      (run Url.parse (constructor page 0) [TypeChat (js "why?")]).

(** After the grading, a second quiz is asked for and shown. *)
Definition again : list event :=
  [ClickGenerateQuiz; FetchSettles 0 (Ok (JQuiz quiz_of_two))].

Definition second_quiz : State :=
  Eval vm_compute in default graded (run Url.parse graded again).

(** The user has picked the two answers and not yet submitted. *)
Definition picking : list event :=
  opened
  ++ [ClickGenerateQuiz; FetchSettles 0 (Ok (JQuiz quiz_of_two));
      ClickOption 0 2; ClickOption 1 0].

Definition picked : State :=
  Eval vm_compute in
    default watching (run Url.parse (constructor page 0) picking).

(** The user asks for a hard quiz after trying medium. *)
Definition choosing : list event :=
  opened ++ [ClickDifficulty (js "medium"); ClickDifficulty (js "hard")].

Definition chosen : State :=
  Eval vm_compute in
    default watching (run Url.parse (constructor page 0) choosing).



(** A summary and the topics are asked for on the sample video; the
    backend answers, or cannot be reached. *)
Definition summarising : State := Eval vm_compute in generateSummary watching.

Definition summary_request : Request :=
  {| endpoint := "/generate-summary";
     request_body := VideoBody (js "dQw4w9WgXcQ") watch_page;
     and_then := AfterSummary |}.

Definition listing : State := Eval vm_compute in extractTopics watching.

Definition topics_request : Request :=
  {| endpoint := "/generate-topics";
     request_body := VideoBody (js "dQw4w9WgXcQ") watch_page;
     and_then := AfterTopics |}.

Definition topics_of_two : list Topic :=
  [ {| topic := js "Induction"; timestamp := 125 |};
    {| topic := js "Recursion"; timestamp := 3600 |} ].

(** The answers of [answering] are graded after the topics were listed. *)
Definition listing_first : list event :=
  opened
  ++ [ClickExtractTopics; FetchSettles 0 (Ok (JTopics topics_of_two));
      ClickGenerateQuiz; FetchSettles 0 (Ok (JQuiz quiz_of_two));
      ClickOption 0 2; ClickOption 1 0; ClickSubmitQuiz].

Definition submitted_later : State :=
  Eval vm_compute in
    default watching (run Url.parse (constructor page 0) listing_first).

End Sample.

(** ** Vocabulary of the statements *)

Module Spec.
Import Url Video Timestamp Popup.

(** The decimal digit of a number below ten. *)
Definition digit (d : N) : N := zero_digit + d.

(** The three tests on a parsed URL, as a proposition. *)
Definition watch_url (u : URL) : Prop :=
  hostname u = js "www.youtube.com"
  /\ pathname u = js "/watch"
  /\ exists value, In (js "v", value) (searchParams u).

(** A run of white space. *)
Definition spaces (w : list N) : Prop := forallb is_space w = true.

Definition ends_in_space (s : list N) : bool :=
  match last s with
  | Some c => is_space c
  | None => false
  end.

(** [t] is [p] followed by white space, a hyphen, white space and the
    word YouTube. *)
Definition suffixed (t p w1 w2 : list N) : Prop :=
  t = p ++ w1 ++ [Title.hyphen] ++ w2 ++ Title.YouTube
  /\ spaces w1 /\ spaces w2.








(** Text without markup: it has no [<], so that the parser of
    [innerHTML] makes a text node of it and no element. *)
Definition plain_text (s : list N) : bool :=
  forallb (fun c => negb (c =? 60)%N) s.

(** A document whose topics container holds no markup of the backend: it
    is as the page had it, or holds topics whose texts are plain. *)
Definition topics_plain (page d : Dom) : Prop :=
  topicsContent (info d) = topicsContent (info page)
  \/ exists topics,
       topicsContent (info d) = map topic_html topics
       /\ forallb (fun t => plain_text (topic t)) topics = true.

(** An event that brings no markup of the backend into the document:
    any event but a topics answer with a [<] in the text of a topic. *)
Definition plain_event (e : event) : bool :=
  match e with
  | FetchSettles _ (Ok (JTopics topics)) =>
      forallb (fun t => plain_text (topic t)) topics
  | _ => true
  end.

Definition error_visible (st : State) : bool :=
  visible (banner_display (errorMessage (notes (document st)))).

Definition success_visible (st : State) : bool :=
  visible (banner_display (successMessage (notes (document st)))).

Definition both_visible (n : Notifications) : bool :=
  visible (banner_display (errorMessage n))
  && visible (banner_display (successMessage n)).

(** How an option of the quiz is marked. *)
Inductive mark := Correct | Incorrect | Neutral | CorrectAndIncorrect.

Definition mark_of (opt : OptionEl) : mark :=
  match classList_contains "correct" (option_classes opt),
        classList_contains "incorrect" (option_classes opt) with
  | true, false => Correct
  | false, true => Incorrect
  | false, false => Neutral
  | true, true => CorrectAndIncorrect
  end.

(** The grading rule: option [j] of a question with correct index [c]
    and selection [u] ([None] when the question has no answer). *)
Definition expected_mark (c : Z) (u : option nat) (j : nat) : mark :=
  if (Z.of_nat j =? c)%Z then Correct
  else if bool_decide (u = Some j) then Incorrect
  else Neutral.

Definition option_at (st : State) (i j : nat) : option OptionEl :=
  match quizContent (quiz (document st)) !! i with
  | Some el => question_options el !! j
  | None => None
  end.

(** The option elements of a question element stand for the options of
    the question, one for one, and each satisfies [P]. *)
Definition options_aligned (P : nat -> OptionEl -> Prop)
    (os : list (list N)) (opts : list OptionEl) : Prop :=
  length opts = length os
  /\ forall j opt, opts !! j = Some opt ->
       P j opt /\ os !! j = Some (option_text opt).

Definition aligned (P : Question -> nat -> nat -> OptionEl -> Prop)
    (qs : list Question) (els : list QuestionEl) : Prop :=
  length els = length qs
  /\ forall i q el, qs !! i = Some q -> els !! i = Some el ->
       options_aligned (P q i) (options q) (question_options el).

(** An option before grading, and after it. *)
Definition fresh_option (_ : Question) (_ _ : nat) (opt : OptionEl) : Prop :=
  mark_of opt = Neutral /\ option_pointerEvents opt <> PointerNone.

Definition graded_option (answers : gmap nat nat) (q : Question) (i j : nat)
    (opt : OptionEl) : Prop :=
  mark_of opt = expected_mark (correct_answer q) (answers !! i) j
  /\ option_pointerEvents opt = PointerNone.

(** The quiz on the page agrees with the quiz of the controller: no
    question element without a quiz; with one, the elements are those
    of its questions, all not yet graded or all graded by the rule. *)
Definition quiz_consistent (st : State) : Prop :=
  match quizData (this st) with
  | None => quizContent (quiz (document st)) = []
  | Some data =>
      aligned fresh_option (questions data) (quizContent (quiz (document st)))
      \/ aligned (graded_option (userAnswers (this st))) (questions data)
           (quizContent (quiz (document st)))
  end.

(** The two nodes of an exchange. *)
Definition user_node (text : list N) : ChatNode :=
  {| className := "chat-message chat-user"; textContent := text |}.

Definition bot_node (text : list N) : ChatNode :=
  {| className := "chat-message chat-bot"; textContent := text |}.

(** The ordinal of the next message of the chat. *)
Definition next_ordinal (st : State) : nat :=
  length (chatMessages (chat (document st))).


(** [s.endsWith(suffix)] *)
Definition endsWith (s suffix : list N) : bool :=
  eqb (skipn (length s - length suffix)%nat s) suffix
  && (length suffix <=? length s)%nat.

(** The number a string of decimal digits denotes. *)
Definition horner (acc d : N) : N := 10 * acc + (d - zero_digit).

Definition value_of_digits (s : list N) : N := fold_left horner s 0.

(** What an operation does to the two banners: nothing, or it ends as
    [showError] or [showSuccess] do. *)
Inductive banners_after (n n' : Notifications) : Prop :=
| banners_same : n' = n -> banners_after n n'
| banners_error :
    banner_display (errorMessage n') = DisplayBlock ->
    banner_display (successMessage n') = DisplayNone ->
    banners_after n n'
| banners_success :
    banner_display (successMessage n') = DisplayBlock ->
    banner_display (errorMessage n') = DisplayNone ->
    banners_after n n'
| banners_hidden :
    (banner_display (errorMessage n') = DisplayNone
     /\ successMessage n' = successMessage n)
    \/ (banner_display (successMessage n') = DisplayNone
        /\ errorMessage n' = errorMessage n) ->
    banners_after n n'.

(** The message of the validation error of [submitQuiz]. *)
Definition no_answer_message : list N :=
  js "Please answer at least one question before submitting".

(** The keys [sendChatMessage] gives to its two nodes. *)
Definition user_key (st : State) : nat :=
  fresh (dom (nodes (chat (document st)))).

Definition bot_key (st : State) (message : list N) : nat :=
  fresh (dom (<[user_key st := user_node message]>
                (nodes (chat (document st))))).

(** What [transcript] shows for a key without a node. *)
Definition no_node : ChatNode := {| className := ""; textContent := [] |}.




End Spec.

Import Spec.

(** ** Vocabulary of the further statements *)

Module Views.
Import Url Video Popup Spec.

Local Open Scope string_scope.
Local Open Scope list_scope.

(** The controls as [showLoading(false)] leaves them. *)
Definition idle_ui : LoadingUi :=
  {| loading := DisplayNone; controls_opacity := "1";
     controls_pointerEvents := PointerAuto |}.

(** The message [makeApiCall] throws for a [fetch] that does not end in
    a 2xx answer with a JSON body. *)
Definition failure_message (o : fetch_outcome) : option (list N) :=
  match makeApiCall_result o with
  | inl _ => None
  | inr message => Some message
  end.

(** The outcomes on which the handler of a request is described: a
    failure, and a 2xx answer with the body of its endpoint (any body
    for a verification, whose answer is not read). *)
Definition expected (k : continuation) (o : fetch_outcome) : bool :=
  match makeApiCall_result o, k with
  | inr _, _ => true
  | inl _, AfterVerify => true
  | inl (JQuiz _), AfterGenerateQuiz => true
  | inl (JSummary _), AfterSummary => true
  | inl (JTopics _), AfterTopics => true
  | inl (JChat _), AfterChat _ => true
  | inl _, _ => false
  end.

(** The four buttons that need a video. *)
Definition needs_video (e : event) : bool :=
  match e with
  | ClickGenerateQuiz | ClickGenerateSummary | ClickExtractTopics
  | ClickStartChat => true
  | _ => false
  end.

Definition sorry : list N := js "Sorry, I encountered an error: ".

(** What a turn of the event loop does to the quiz: nothing; a new quiz
    is shown; an option is clicked; the quiz is graded (up to an error,
    with the submit button hidden when there is none). *)
Inductive quiz_change (st st' : State) : Prop :=
| quiz_same :
    quizData (this st') = quizData (this st) ->
    userAnswers (this st') = userAnswers (this st) ->
    quiz (document st') = quiz (document st) ->
    quiz_change st st'
| quiz_shown data :
    quizData (this st') = Some data ->
    userAnswers (this st') = ∅ ->
    quizContent (quiz (document st')) = imap render_question (questions data) ->
    submitQuizBtn (quiz (document st')) = submitQuizBtn (quiz (document st)) ->
    quiz_change st st'
| quiz_clicked index optionIndex :
    option_clickable index optionIndex st = true ->
    quizData (this st') = quizData (this st) ->
    userAnswers (this st') = <[index := optionIndex]> (userAnswers (this st)) ->
    quizContent (quiz (document st'))
    = alter (select_in optionIndex) index (quizContent (quiz (document st))) ->
    submitQuizBtn (quiz (document st')) = submitQuizBtn (quiz (document st)) ->
    quiz_change st st'
| quiz_marked thrown :
    quizData (this st') = quizData (this st) ->
    userAnswers (this st') = userAnswers (this st) ->
    (quizContent (quiz (document st')), thrown)
    = mark_questions (quizData (this st)) (userAnswers (this st)) 0
        (quizContent (quiz (document st))) ->
    submitQuizBtn (quiz (document st'))
    = match thrown with
      | Some _ => submitQuizBtn (quiz (document st))
      | None => DisplayNone
      end ->
    quiz_change st st'.

(** The option elements mirror the answers: an option carries the class
    [selected] exactly when it is the answer recorded for its question. *)
Definition selection_mirrored (st : State) : Prop :=
  forall i el j opt,
    quizContent (quiz (document st)) !! i = Some el ->
    question_options el !! j = Some opt ->
    classList_contains "selected" (option_classes opt) = true
    <-> userAnswers (this st) !! i = Some j.

(** Every recorded answer points at an option element of the page. *)
Definition answers_on_page (st : State) : Prop :=
  forall i j, userAnswers (this st) !! i = Some j ->
    exists opt, option_at st i j = Some opt.

(** Grading leaves the text of an option and its classes other than
    [correct] and [incorrect] as they are. *)
Definition marked_option (opt opt' : OptionEl) : Prop :=
  option_text opt' = option_text opt
  /\ forall c, c <> "correct" -> c <> "incorrect" ->
       classList_contains c (option_classes opt')
       = classList_contains c (option_classes opt).

Definition marked_question (el el' : QuestionEl) : Prop :=
  Forall2 marked_option (question_options el) (question_options el').

(** The video a request is about. *)
Definition body_video (b : body) : list N * list N :=
  match b with
  | GenerateQuizBody video_id video_url _ _ => (video_id, video_url)
  | VerifyBody video_id video_url _ _ => (video_id, video_url)
  | VideoBody video_id video_url => (video_id, video_url)
  | ChatBody video_id video_url _ => (video_id, video_url)
  end.

(** The controller knows its video before it asks or holds anything:
    while the tab is awaited there is no video; every request in flight
    is about the video of the controller; a quiz is only held with a
    video. *)
Definition video_known (st : State) : Prop :=
  (tabsQueryPending (env st) = true -> currentVideo (this st) = None)
  /\ (forall request, In request (inflight (env st)) ->
        exists video,
          currentVideo (this st) = Some video
          /\ body_video (request_body request)
             = (videoId video, videoUrl video))
  /\ (quizData (this st) <> None -> currentVideo (this st) <> None).

(** The difficulty in force after an event, and after a sequence of
    events from the start of the popup. *)
Definition pick_difficulty (difficulty : list N) (e : event) : list N :=
  match e with
  | ClickDifficulty clicked => clicked
  | _ => difficulty
  end.

Definition chosen_difficulty (es : list event) : list N :=
  fold_left pick_difficulty es (js "easy").

(** The classes of the two kinds of messages. *)
Definition user_class : string := "chat-message chat-user".
Definition bot_class : string := "chat-message chat-bot".

(** The class of the node of a key, if the key has a node. *)
Definition class_of (c : ChatDom) (key : nat) : option string :=
  className <$> nodes c !! key.

(** The classes of [k] exchanges in a row. *)
Definition exchanges (k : nat) : list string :=
  concat (replicate k [user_class; bot_class]).

(** The messages of the chat are those of a number of exchanges, each
    with its node. *)
Definition chat_paired (c : ChatDom) : Prop :=
  exists k, map (class_of c) (chatMessages c) = map Some (exchanges k).

(** What a turn of the event loop does to the messages: nothing; the
    chat is emptied; an exchange is appended on two new nodes; the text
    of a node is replaced. *)
Inductive chat_change (c c' : ChatDom) : Prop :=
| chat_kept :
    chatMessages c' = chatMessages c -> nodes c' = nodes c ->
    chat_change c c'
| chat_cleared :
    chatMessages c' = [] -> nodes c' = nodes c ->
    chat_change c c'
| chat_appended k1 k2 :
    k1 ∉ dom (nodes c) -> k2 ∉ dom (nodes c) ->
    chatMessages c' = chatMessages c ++ [k1; k2] ->
    class_of c' k1 = Some user_class ->
    class_of c' k2 = Some bot_class ->
    (forall key, key ∈ dom (nodes c) -> class_of c' key = class_of c key) ->
    chat_change c c'
| chat_text key text :
    chatMessages c' = chatMessages c ->
    nodes c' = alter (set_textContent text) key (nodes c) ->
    chat_change c c'.

Definition starts_with_space (s : list N) : bool :=
  match s with
  | c :: _ => is_space c
  | [] => false
  end.

(** A selector finds no text on the page: no element, or an element
    whose three properties are all empty or missing. *)
Definition no_text (page : Content.Page) (selector : string) : Prop :=
  match Content.querySelector page selector with
  | Some element =>
      Content.truthy_value
        (Content.or_else (Content.el_textContent element)
           (Content.or_else (Content.el_content element)
              (Content.el_innerText element))) = false
  | None => True
  end.

End Views.

Import Views.

(** ** A sample watch page *)

Module SamplePage.
Import Content.

Local Open Scope string_scope.
Local Open Scope list_scope.

(** A watch page whose heading is empty and whose [og:title] holds the
    title, with white space around it. *)
Definition elements (selector : string) : option Element :=
  if String.eqb selector "h1.title" then
    Some {| el_textContent := Some []; el_content := None;
            el_innerText := Some [] |}
  else if String.eqb selector (attribute_selector "meta" "property" "og:title")
  then
    Some {| el_textContent := Some [];
            el_content := Some (js "  Induction explained - YouTube ");
            el_innerText := Some [] |}
  else if String.eqb selector "title" then
    Some {| el_textContent := Some (js "(3) Induction explained - YouTube");
            el_content := None;
            el_innerText := Some (js "(3) Induction explained - YouTube") |}
  else None.

(** The four heading selectors, tried before [og:title], and the
    [og:title] element itself. *)
Definition headings : list string :=
  [ "h1.ytd-video-primary-info-renderer";
    "h1.title.ytd-video-primary-info-renderer";
    "h1.ytd-watch-metadata"; "h1.title" ].

Definition og_title : Element :=
  {| el_textContent := Some [];
     el_content := Some (js "  Induction explained - YouTube ");
     el_innerText := Some [] |}.

Definition page : Page :=
  {| search := [(js "v", js "dQw4w9WgXcQ"); (js "t", js "42s")];
     href := js "https://www.youtube.com/watch?v=dQw4w9WgXcQ&t=42s";
     querySelector := elements;
     clock := 1700000000000 |}.

Definition reported : PageInfo :=
  {| videoId := js "dQw4w9WgXcQ";
     title := js "Induction explained - YouTube";
     videoUrl := js "https://www.youtube.com/watch?v=dQw4w9WgXcQ&t=42s";
     description := [];
     channelName := [];
     timestamp := 1700000000000 |}.

End SamplePage.

(** * Properties *)

(** ** Strings *)

Section JsFacts.

Lemma eqb_eq (a b : list N) : eqb a b = true <-> a = b.
Proof.
  revert b; induction a as [|x a IH]; intros [|y b]; simpl; try easy.
  rewrite andb_true_iff, N.eqb_eq, IH.
  split; [intros [-> ->]; reflexivity | intros [= -> ->]; auto].
Qed.

Lemma eqb_refl (a : list N) : eqb a a = true.
Proof. apply eqb_eq; reflexivity. Qed.

Lemma truthy_false (s : list N) : truthy s = false <-> s = [].
Proof. destruct s; simpl; split; congruence. Qed.

End JsFacts.

(** ** Timestamps *)

Module TimestampFacts.
Import Timestamp.

(** The two digits of a number of seconds below sixty, as [padStart]
    leaves them. *)
Lemma two_digits (r : N) :
  r < 60 ->
  padStart 2 (js "0") (toString r) = [digit (r / 10); digit (r mod 10)].
Proof.
  intros Hr.
  assert (Hk : exists k : nat, (k < 60)%nat /\ r = N.of_nat k).
  { exists (N.to_nat r); split; lia. }
  destruct Hk as (k & Hk & ->).
  do 60 (destruct k as [|k]; [vm_compute; reflexivity|]).
  lia.
Qed.

Lemma of_uint_acc_digits (d : Decimal.uint) : forall acc : positive,
  Npos (Pos.of_uint_acc d acc) = fold_left horner (digits_of_uint d) (Npos acc).
Proof.
  induction d; intros acc; simpl; try reflexivity; rewrite IHd; f_equal;
    unfold horner, zero_digit; lia.
Qed.

Lemma of_uint_digits (d : Decimal.uint) :
  N.of_uint d = fold_left horner (digits_of_uint d) 0.
Proof.
  unfold N.of_uint.
  induction d; simpl; try reflexivity; try apply of_uint_acc_digits.
  exact IHd.
Qed.

(** [toString] writes the number in decimal. *)
Lemma toString_value (n : N) : value_of_digits (toString n) = n.
Proof.
  unfold value_of_digits, toString.
  rewrite <- of_uint_digits. apply DecimalN.Unsigned.of_to.
Qed.

Lemma round_up_cases (q r d : N) :
  round_up q r d = q \/ (round_up q r d = q + 1 /\ d <= 2 * r).
Proof.
  unfold round_up.
  destruct (d <? 2 * r) eqn:Hlt; cbn [orb andb].
  - right. apply N.ltb_lt in Hlt. split; [reflexivity|lia].
  - destruct (d =? 2 * r) eqn:Heq; cbn [orb andb]; [|left; reflexivity].
    apply N.eqb_eq in Heq.
    destruct (N.odd q); [right; split; [reflexivity|lia]|left; reflexivity].
Qed.

(** Below 2^53 the quotient by sixty rounds to a double with the same
    floor: the rounding moves it by less than a sixtieth. *)
Lemma floor_quotient_safe (v : N) :
  v < 2 ^ 53 -> floor_quotient v 60 = v / 60.
Proof.
  intros Hv. unfold floor_quotient.
  destruct (v =? 0) eqn:Hzero.
  { apply N.eqb_eq in Hzero. subst v. reflexivity. }
  apply N.eqb_neq in Hzero.
  set (x := v * 2 ^ 64 / 60).
  assert (Hlow : 2 ^ 58 <= x).
  { unfold x. transitivity (1 * 2 ^ 64 / 60).
    - vm_compute. discriminate.
    - apply N.Div0.div_le_mono. apply N.mul_le_mono_r. lia. }
  assert (Hhigh : x < 2 ^ 112).
  { unfold x. apply N.Div0.div_lt_upper_bound.
    change (2 ^ 64) with 18446744073709551616.
    change (2 ^ 112) with 5192296858534827628530496329220096.
    change (2 ^ 53) with 9007199254740992 in Hv. lia. }
  assert (Hpos : 0 < x)
    by (change (2 ^ 58) with 288230376151711744 in Hlow; lia).
  assert (Hp1 : 58 <= N.log2 x) by (apply N.log2_le_pow2; assumption).
  assert (Hp2 : N.log2 x < 112) by (apply N.log2_lt_pow2; assumption).
  set (k := N.log2 x - 52).
  assert (Hk : 64 = (64 - k) + k) by lia.
  assert (Hj : 64 - k = 5 + (64 - k - 5)) by lia.
  set (K := 2 ^ k).
  set (T := 2 ^ (64 - k)).
  assert (H64 : 2 ^ 64 = T * K).
  { unfold T, K. rewrite <- N.pow_add_r, <- Hk. reflexivity. }
  assert (HK : K <> 0) by (unfold K; apply N.pow_nonzero; discriminate).
  assert (HT : 32 <= T).
  { unfold T. rewrite Hj, N.pow_add_r. change (2 ^ 5) with 32.
    assert (0 < 2 ^ (64 - k - 5))
      by (apply N.neq_0_lt_0, N.pow_nonzero; discriminate).
    lia. }
  rewrite H64.
  replace (v * (T * K)) with (v * T * K) by lia.
  rewrite !N.Div0.div_mul_cancel_r by assumption.
  rewrite N.Div0.mul_mod_distr_r.
  set (q := v * T / 60). set (e := (v * T) mod 60).
  assert (Hdiv : v * T = 60 * q + e) by (apply N.Div0.div_mod).
  assert (He : e < 60) by (apply N.mod_lt; discriminate).
  assert (Hv60 : v = 60 * (v / 60) + v mod 60) by (apply N.Div0.div_mod).
  assert (Hb : v mod 60 < 60) by (apply N.mod_lt; discriminate).
  set (a := v / 60) in *. set (b := v mod 60) in *.
  symmetry.
  destruct (round_up_cases q (e * K) (60 * K)) as [-> | [-> Hround]].
  - apply N.div_unique with (r := q - a * T); nia.
  - assert (30 <= e) by nia.
    apply N.div_unique with (r := q + 1 - a * T); nia.
Qed.

(** Below 2^53 the arithmetic of [formatTimestamp] is that of the
    integers. *)
Lemma formatTimestamp_safe (s : N) :
  s < 2 ^ 53 ->
  formatTimestamp s
  = toString (s / 60) ++ [colon]
    ++ [digit ((s mod 60) / 10); digit ((s mod 60) mod 10)].
Proof.
  intros Hs.
  assert (Hmod : s mod 60 < 60) by (apply N.mod_lt; discriminate).
  assert (Hdiv : s / 60 <= s) by (apply N.Div0.div_le_upper_bound; lia).
  unfold formatTimestamp, to_double, Number_toString.
  rewrite (proj2 (N.ltb_lt s (2 ^ 53)) Hs).
  rewrite floor_quotient_safe by assumption.
  rewrite (proj2 (N.ltb_lt (s / 60) (2 ^ 53))) by lia.
  rewrite (proj2 (N.ltb_lt (s mod 60) (2 ^ 53)))
    by (change (2 ^ 53) with 9007199254740992; lia).
  rewrite two_digits by assumption. reflexivity.
Qed.

(** C9, for the integers below 2^53: [formatTimestamp] of [s] is the
    decimal numeral of [s / 60] (floor division), a colon, and the two
    decimal digits of [s mod 60]; it maps 125 to "2:05", 59 to "0:59"
    and 0 to "0:00". *)
Theorem formatTimestamp_minutes_seconds (s : N) :
  s < 2 ^ 53 ->
  formatTimestamp s
  = toString (s / 60) ++ [colon]
    ++ [digit ((s mod 60) / 10); digit ((s mod 60) mod 10)]
  /\ value_of_digits (toString (s / 60)) = s / 60
  /\ formatTimestamp 125 = js "2:05"
  /\ formatTimestamp 59 = js "0:59"
  /\ formatTimestamp 0 = js "0:00".
Proof.
  intros Hs.
  split; [apply formatTimestamp_safe; assumption|].
  split; [apply toString_value|repeat split; reflexivity].
Qed.

(** The greatest integer below 2^53, rendered: an instance. *)
Lemma formatTimestamp_minutes_seconds_witness :
  9007199254740991 < 2 ^ 53
  /\ formatTimestamp 9007199254740991 = js "150119987579016:31".
Proof.
  assert (H : 9007199254740991 < 2 ^ 53) by (vm_compute; reflexivity).
  split; [exact H|].
  exact (proj1 (formatTimestamp_minutes_seconds 9007199254740991 H)).
Defined.

(** C9 fails above 2^53, where the division by sixty rounds: the number
    67553994410557496 is a double, sixty times 1125899906842624 plus
    56, and its quotient by sixty rounds up to the next integer. *)
Lemma formatTimestamp_rounds_above :
  to_double 67553994410557496 = Some 67553994410557496
  /\ 67553994410557496 / 60 = 1125899906842624
  /\ 67553994410557496 mod 60 = 56
  /\ formatTimestamp 67553994410557496 = js "1125899906842625:56"
  /\ formatTimestamp 67553994410557496
     <> toString (67553994410557496 / 60) ++ [colon]
        ++ [digit ((67553994410557496 mod 60) / 10);
            digit ((67553994410557496 mod 60) mod 10)].
Proof.
  repeat split; try (vm_compute; reflexivity).
  vm_compute. discriminate.
Qed.

End TimestampFacts.

(** ** Recognising a video page *)

Module VideoFacts.
Import Url Video.

Lemma has_iff (name : list N) (ps : list (list N * list N)) :
  has name ps = true <-> exists value, In (name, value) ps.
Proof.
  unfold has. rewrite existsb_exists. split.
  - intros ([n v] & Hin & Heq). simpl in Heq. apply eqb_eq in Heq. subst.
    exists v; assumption.
  - intros (v & Hin). exists (name, v). split; [assumption|apply eqb_refl].
Qed.

Lemma has_get (name : list N) (ps : list (list N * list N)) :
  has name ps = true -> exists value, get name ps = Some value.
Proof.
  induction ps as [|[n v] ps IH]; simpl; [discriminate|].
  destruct (eqb n name); simpl; eauto.
Qed.

Section WithParser.

Variable newURL : list N -> option URL.

Lemma valid_parsed (url : list N) :
  isValidYouTubeVideoPage newURL url = true
  <-> exists u, newURL url = Some u /\ watch_url u.
Proof.
  unfold isValidYouTubeVideoPage, watch_url.
  destruct (newURL url) as [u|].
  - rewrite !andb_true_iff, !eqb_eq, has_iff. split.
    + intros [[Hh Hp] Hv]. exists u; auto.
    + intros (u' & [= <-] & Hh & Hp & Hv); auto.
  - split; [discriminate|]. intros (u & [=] & _).
Qed.

(** C2: a URL is classified as a video page exactly when it parses, its
    host is www.youtube.com, its path is /watch and its query has a
    parameter v; the popup and the content script classify alike. The
    browser's parser rejects the empty string. *)
Theorem isYouTubeVideoPage_iff (url : list N) :
  newURL [] = None ->
  (isYouTubeVideoPage newURL url = true
   <-> exists u, newURL url = Some u /\ watch_url u)
  /\ isValidYouTubeVideoPage newURL url = isYouTubeVideoPage newURL url.
Proof.
  intros Hempty.
  assert (Hsame : isValidYouTubeVideoPage newURL url
                  = isYouTubeVideoPage newURL url).
  { unfold isYouTubeVideoPage, isValidYouTubeVideoPage.
    destruct url as [|c url]; simpl; [rewrite Hempty|]; reflexivity. }
  split; [|exact Hsame].
  rewrite <- Hsame. apply valid_parsed.
Qed.

(** C10, as the code has it: on a URL classified as a video page, the
    parameter v has a first value, and [extractVideoInfo] returns the
    video context made of that value, the URL and the cleaned title when
    the value is not empty, and [null] when it is empty; [loadVideoInfo]
    on a tab with that URL keeps the context and announces the video in
    the first case, and in the second ends in its "Unable to extract
    video information" branch. *)
Theorem extractVideoInfo_after_valid (url title : list N) :
  isYouTubeVideoPage newURL url = true ->
  exists u videoId,
    newURL url = Some u
    /\ get (js "v") (searchParams u) = Some videoId
    /\ extractVideoInfo newURL url title
       = (if truthy videoId then
            Some {| videoId := videoId; videoUrl := url;
                    title := Title.cleanTitle title; fullUrl := url |}
          else None)
    /\ forall st,
         Popup.loadVideoInfo newURL
           (Popup.TabsResolved
              (Some {| Popup.tab_url := url; Popup.tab_title := title |})) st
         = if truthy videoId then
             let videoInfo :=
               {| videoId := videoId; videoUrl := url;
                  title := Title.cleanTitle title; fullUrl := url |} in
             Popup.showSuccess (js "Video detected successfully!")
               (Popup.updateVideoInfo videoInfo
                  (Popup.on_this (Popup.set_currentVideo (Some videoInfo)) st))
           else
             Popup.showError (js "Unable to extract video information") st.
Proof.
  intros Hvalid.
  assert (Hextract : exists u videoId,
             newURL url = Some u
             /\ get (js "v") (searchParams u) = Some videoId
             /\ extractVideoInfo newURL url title
                = if truthy videoId then
                    Some {| videoId := videoId; videoUrl := url;
                            title := Title.cleanTitle title; fullUrl := url |}
                  else None).
  { revert Hvalid. unfold isYouTubeVideoPage, extractVideoInfo.
    destruct (negb (truthy url)); [discriminate|].
    destruct (newURL url) as [u|]; [|discriminate].
    rewrite !andb_true_iff. intros [_ Hv].
    destruct (has_get _ _ Hv) as (videoId & Hget).
    exists u, videoId. rewrite Hget.
    destruct videoId; simpl; auto. }
  destruct Hextract as (u & videoId & Hu & Hget & Hextract).
  exists u, videoId. repeat split; try assumption.
  intros st. unfold Popup.loadVideoInfo. cbn [Popup.tab_url Popup.tab_title].
  rewrite Hvalid, Hextract. cbn [negb].
  destruct (truthy videoId); reflexivity.
Qed.

End WithParser.

(** The watch page of a video, an instance of C2. *)
Lemma isYouTubeVideoPage_iff_witness :
  (isYouTubeVideoPage parse (Sample.watch_page) = true
   <-> exists u, parse Sample.watch_page = Some u /\ watch_url u)
  /\ isValidYouTubeVideoPage parse Sample.watch_page
     = isYouTubeVideoPage parse Sample.watch_page.
Proof.
  apply (isYouTubeVideoPage_iff parse Sample.watch_page).
  reflexivity.
Defined.

(** A tab on a watch page with a video id, an instance of C10 as
    amended. *)
Lemma extractVideoInfo_after_valid_witness :
  isYouTubeVideoPage parse Sample.watch_page = true
  /\ exists u videoId,
       parse Sample.watch_page = Some u
       /\ get (js "v") (searchParams u) = Some videoId
       /\ extractVideoInfo parse Sample.watch_page
            (js "Induction explained - YouTube")
          = (if truthy videoId then
               Some {| videoId := videoId; videoUrl := Sample.watch_page;
                       title :=
                         Title.cleanTitle (js "Induction explained - YouTube");
                       fullUrl := Sample.watch_page |}
             else None)
       /\ forall st,
            Popup.loadVideoInfo parse
              (Popup.TabsResolved
                 (Some {| Popup.tab_url := Sample.watch_page;
                          Popup.tab_title :=
                            js "Induction explained - YouTube" |})) st
            = if truthy videoId then
                let videoInfo :=
                  {| videoId := videoId; videoUrl := Sample.watch_page;
                     title :=
                       Title.cleanTitle (js "Induction explained - YouTube");
                     fullUrl := Sample.watch_page |} in
                Popup.showSuccess (js "Video detected successfully!")
                  (Popup.updateVideoInfo videoInfo
                     (Popup.on_this
                        (Popup.set_currentVideo (Some videoInfo)) st))
              else
                Popup.showError
                  (js "Unable to extract video information") st.
Proof.
  split; [reflexivity|].
  apply (extractVideoInfo_after_valid parse Sample.watch_page).
  reflexivity.
Defined.

(** C10 fails on a watch URL whose parameter v is empty: the page is
    classified as a video page, [extractVideoInfo] returns [null], and
    [loadVideoInfo] ends in its "Unable to extract video information"
    branch. *)
Lemma valid_page_without_video_id :
  isYouTubeVideoPage parse (js "https://www.youtube.com/watch?v=") = true
  /\ extractVideoInfo parse (js "https://www.youtube.com/watch?v=")
       (js "Induction explained - YouTube") = None
  /\ Popup.banner_text
       (Popup.errorMessage
          (Popup.notes
             (Popup.document
                (Popup.loadVideoInfo parse
                   (Popup.TabsResolved
                      (Some {| Popup.tab_url := js "https://www.youtube.com/watch?v=";
                               Popup.tab_title := js "Induction explained - YouTube" |}))
                   (Popup.constructor Sample.page 0)))))
     = js "Unable to extract video information".
Proof. repeat split; reflexivity. Qed.

End VideoFacts.

(** ** Matching and replacing *)

Module RegexFacts.

Lemma match_here_star_nil cls r :
  match_here (Star cls :: r) [] = match_here r [].
Proof. reflexivity. Qed.

Lemma match_here_star_cons cls r x s :
  match_here (Star cls :: r) (x :: s)
  = if cls x then
      match match_here (Star cls :: r) s with
      | Some k => Some k
      | None => match_here r (x :: s)
      end
    else match_here r (x :: s).
Proof. reflexivity. Qed.

(** A match of a star followed by [r] splits the input into a run of the
    class and a match of [r]. *)
Lemma star_sound cls r s k :
  match_here (Star cls :: r) s = Some k ->
  exists w s', s = w ++ s' /\ forallb cls w = true /\ match_here r s' = Some k.
Proof.
  induction s as [|x s IH].
  - rewrite match_here_star_nil. intros H. exists [], []. auto.
  - rewrite match_here_star_cons.
    destruct (cls x) eqn:Hx.
    + destruct (match_here (Star cls :: r) s) as [k'|] eqn:Hs.
      * intros [= ->]. destruct (IH eq_refl) as (w & s' & -> & Hw & Hr).
        exists (x :: w), s'. simpl. rewrite Hx, Hw. auto.
      * intros H. exists [], (x :: s). auto.
    + intros H. exists [], (x :: s). auto.
Qed.

(** Backtracking finds a match whenever some split has one. *)
Lemma star_complete cls r w s' k :
  forallb cls w = true ->
  match_here r s' = Some k ->
  exists k', match_here (Star cls :: r) (w ++ s') = Some k'.
Proof.
  intros Hw Hr. induction w as [|x w IH]; simpl app.
  - destruct s' as [|y s'].
    + rewrite match_here_star_nil. eauto.
    + rewrite match_here_star_cons.
      destruct (cls y); [|eauto].
      destruct (match_here (Star cls :: r) s'); eauto.
  - simpl in Hw. apply andb_true_iff in Hw as [Hx Hw].
    rewrite match_here_star_cons, Hx.
    destruct (IH Hw) as (k' & ->). eauto.
Qed.

Lemma lit_iff c r s k :
  match_here (Lit c :: r) s = Some k
  <-> exists s', s = c :: s' /\ match_here r s' = Some k.
Proof.
  simpl. destruct s as [|x s].
  - split; [discriminate|]. intros (s' & [=] & _).
  - destruct (N.eqb_spec x c) as [->|Hne].
    + split; [eauto|]. intros (s' & [= ->] & H); exact H.
    + split; [discriminate|]. intros (s' & [= -> ->] & _). congruence.
Qed.

Lemma lits_iff l r s k :
  match_here (lits l ++ r) s = Some k
  <-> exists s', s = l ++ s' /\ match_here r s' = Some k.
Proof.
  revert s. induction l as [|c l IH]; intros s.
  - simpl. split; [eauto|]. intros (s' & -> & H); exact H.
  - change (lits (c :: l) ++ r) with (Lit c :: (lits l ++ r)).
    rewrite lit_iff. split.
    + intros (s1 & -> & H). apply IH in H as (s' & -> & H). eauto.
    + intros (s' & -> & H). exists (l ++ s'). split; [reflexivity|].
      apply IH. eauto.
Qed.

Lemma end_anchor_iff s k :
  match_here [EndAnchor] s = Some k <-> s = [] /\ k = [].
Proof.
  destruct s; simpl; split; try easy.
  - intros [= <-]; auto.
  - intros [_ ->]; reflexivity.
Qed.

Lemma replace_unfold r repl s :
  replace r repl s
  = match match_here r s with
    | Some rest => repl ++ rest
    | None =>
        match s with
        | [] => []
        | c :: s' => c :: replace r repl s'
        end
    end.
Proof. destruct s; reflexivity. Qed.

(** [replace] either finds no match at any position and returns the
    string, or rewrites the match at the leftmost position that has one. *)
Lemma replace_cases r repl s :
  (replace r repl s = s
   /\ forall p m, s = p ++ m -> match_here r m = None)
  \/ exists p m k,
       s = p ++ m
       /\ match_here r m = Some k
       /\ replace r repl s = p ++ repl ++ k
       /\ forall p1 p2, p = p1 ++ p2 -> p2 <> [] ->
                        match_here r (p2 ++ m) = None.
Proof.
  induction s as [|c s IH]; rewrite replace_unfold.
  - destruct (match_here r []) as [k|] eqn:Hm.
    + right. exists [], [], k. repeat split; auto.
      intros p1 p2 Hp Hne. symmetry in Hp.
      apply app_eq_nil in Hp as [_ ->]. congruence.
    + left. split; [reflexivity|].
      intros p m Hp. symmetry in Hp.
      apply app_eq_nil in Hp as [_ ->]. exact Hm.
  - destruct (match_here r (c :: s)) as [k|] eqn:Hm.
    + right. exists [], (c :: s), k. repeat split; auto.
      intros p1 p2 Hp Hne. symmetry in Hp.
      apply app_eq_nil in Hp as [_ ->]. congruence.
    + destruct IH as [[Hsame Hnone]|(p & m & k & -> & Hk & Hrep & Hleft)].
      * left. rewrite Hsame. split; [reflexivity|].
        intros [|x p] m Hp; simpl in Hp.
        -- subst m. exact Hm.
        -- injection Hp as -> ->. eapply Hnone; reflexivity.
      * right. exists (c :: p), m, k. rewrite Hrep. repeat split; auto.
        intros [|x p1] p2 Hp Hne; simpl in Hp.
        -- subst p2. exact Hm.
        -- injection Hp as -> ->. eapply Hleft; eauto.
Qed.

(** The last occurrence of a code unit splits a string in one way. *)
Lemma split_at_last (h : N) (l1 l2 t1 t2 : list N) :
  l1 ++ h :: t1 = l2 ++ h :: t2 ->
  ~ In h t1 -> ~ In h t2 ->
  l1 = l2 /\ t1 = t2.
Proof.
  revert l2. induction l1 as [|x l1 IH]; intros [|y l2] Heq H1 H2; simpl in Heq.
  - injection Heq as Ht. auto.
  - injection Heq as Hh Ht. exfalso. apply H1. rewrite Ht.
    apply in_or_app. right. left. reflexivity.
  - injection Heq as Hh Ht. exfalso. apply H2. rewrite <- Ht.
    apply in_or_app. right. left. reflexivity.
  - injection Heq as Hx Heq. destruct (IH _ Heq H1 H2) as [Hl Ht].
    subst. auto.
Qed.

End RegexFacts.

(** ** Title clean-up *)

Module TitleFacts.
Import Title RegexFacts.

Lemma suffix_re_sound s k :
  match_here suffix_re s = Some k ->
  k = [] /\ exists w1 w2, spaces w1 /\ spaces w2
                          /\ s = w1 ++ [hyphen] ++ w2 ++ YouTube.
Proof.
  unfold suffix_re. intros H.
  apply star_sound in H as (w1 & s1 & -> & Hw1 & H).
  apply lit_iff in H as (s2 & -> & H).
  apply star_sound in H as (w2 & s3 & -> & Hw2 & H).
  apply lits_iff in H as (s4 & -> & H).
  apply end_anchor_iff in H as [-> ->].
  split; [reflexivity|]. exists w1, w2. rewrite app_nil_r. auto.
Qed.

Lemma suffix_re_complete w1 w2 :
  spaces w1 -> spaces w2 ->
  match_here suffix_re (w1 ++ [hyphen] ++ w2 ++ YouTube) = Some [].
Proof.
  intros Hw1 Hw2.
  assert (H : exists k, match_here suffix_re (w1 ++ [hyphen] ++ w2 ++ YouTube)
                        = Some k).
  { unfold suffix_re.
    assert (H3 : match_here (lits YouTube ++ [EndAnchor]) YouTube = Some []).
    { apply lits_iff. exists []. rewrite app_nil_r. split; [reflexivity|].
      apply end_anchor_iff. auto. }
    destruct (star_complete is_space _ w2 _ _ Hw2 H3) as (k2 & H2).
    assert (H1 : match_here (Lit hyphen :: Star is_space
                             :: lits YouTube ++ [EndAnchor])
                   ([hyphen] ++ w2 ++ YouTube) = Some k2).
    { apply lit_iff. eauto. }
    exact (star_complete is_space _ w1 _ _ Hw1 H1). }
  destruct H as (k & H). destruct (suffix_re_sound _ _ H) as [-> _]. exact H.
Qed.

Lemma spaces_no_hyphen w : spaces w -> ~ In hyphen w.
Proof.
  intros Hw Hin. unfold spaces in Hw. rewrite forallb_forall in Hw.
  specialize (Hw _ Hin). discriminate.
Qed.

Lemma no_hyphen_after w : spaces w -> ~ In hyphen (w ++ YouTube).
Proof.
  intros Hw Hin. apply in_app_or in Hin as [Hin|Hin].
  - exact (spaces_no_hyphen _ Hw Hin).
  - vm_compute in Hin. intuition discriminate.
Qed.

Lemma spaces_app w1 w2 : spaces (w1 ++ w2) <-> spaces w1 /\ spaces w2.
Proof. unfold spaces. rewrite forallb_app, andb_true_iff. reflexivity. Qed.

Lemma ends_in_space_snoc p c : ends_in_space (p ++ [c]) = is_space c.
Proof. unfold ends_in_space. rewrite last_snoc. reflexivity. Qed.

(** The clean-up removes the suffix of a title that has one, with the
    white space before it. *)
Lemma cleanTitle_suffixed t p w1 w2 :
  suffixed t p w1 w2 -> ends_in_space p = false -> cleanTitle t = p.
Proof.
  intros (-> & Hw1 & Hw2) Hp. unfold cleanTitle.
  destruct (replace_cases suffix_re [] (p ++ w1 ++ [hyphen] ++ w2 ++ YouTube))
    as [[_ Hnone]|(p' & m & k & Heq & Hm & -> & Hleft)].
  - specialize (Hnone p _ eq_refl).
    rewrite suffix_re_complete in Hnone by assumption. discriminate.
  - apply suffix_re_sound in Hm as (-> & a & b & Ha & Hb & ->).
    simpl. rewrite app_nil_r.
    assert (Hsplit : p ++ w1 = p' ++ a).
    { rewrite !app_assoc in Heq. rewrite <- !(app_assoc _ _ YouTube) in Heq.
      simpl in Heq.
      rewrite <- (app_assoc (p ++ w1)), <- (app_assoc (p' ++ a)) in Heq.
      simpl in Heq.
      eapply split_at_last in Heq as [H _]; eauto using no_hyphen_after. }
    apply app_eq_app in Hsplit as (l & [[-> ->]|[-> ->]]).
    + (* the match starts inside [p]: [p] would end in white space *)
      destruct l as [|c l _] using rev_ind; [rewrite app_nil_r; reflexivity|].
      apply spaces_app in Ha as [Hl _]. apply spaces_app in Hl as [_ Hc].
      rewrite app_assoc, ends_in_space_snoc in Hp.
      unfold spaces in Hc. simpl in Hc. rewrite Hp in Hc. discriminate.
    + (* the match starts after [p]: an earlier start also matches *)
      destruct l as [|c l]; [rewrite app_nil_r; reflexivity|].
      apply spaces_app in Hw1 as [Hl Ha'].
      specialize (Hleft p (c :: l) eq_refl ltac:(discriminate)).
      rewrite app_assoc in Hleft.
      rewrite suffix_re_complete in Hleft; [discriminate| |assumption].
      apply spaces_app. auto.
Qed.

(** A title without the suffix is returned as it is. *)
Lemma cleanTitle_not_suffixed t :
  (forall p w1 w2, ~ suffixed t p w1 w2) -> cleanTitle t = t.
Proof.
  intros Hno. unfold cleanTitle.
  destruct (replace_cases suffix_re [] t)
    as [[Hsame _]|(p & m & k & -> & Hm & _ & _)]; [exact Hsame|].
  apply suffix_re_sound in Hm as (_ & a & b & Ha & Hb & ->).
  exfalso. apply (Hno p a b). repeat split; assumption.
Qed.

Lemma endsWith_app (a suffix : list N) : endsWith (a ++ suffix) suffix = true.
Proof.
  unfold endsWith. rewrite length_app.
  replace (length a + length suffix - length suffix)%nat with (length a) by lia.
  rewrite drop_app_length, eqb_refl. simpl. apply Nat.leb_le. lia.
Qed.

Lemma suffixed_endsWith t p w1 w2 :
  suffixed t p w1 w2 -> endsWith t YouTube = true.
Proof.
  intros (-> & _ & _). rewrite !app_assoc. apply endsWith_app.
Qed.

(** C3, as the code has it: the clean-up removes one suffix matching
    [\s*-\s*YouTube] at the end of the title (white space, a hyphen, white
    space and the word YouTube in this exact case) together with the
    white space before it, and returns a title without such a suffix as
    it is; cleaning twice equals cleaning once whenever the title
    cleaned once does not end in YouTube. *)
Theorem cleanTitle_once (t : list N) :
  (forall p w1 w2,
      suffixed t p w1 w2 -> ends_in_space p = false -> cleanTitle t = p)
  /\ ((forall p w1 w2, ~ suffixed t p w1 w2) -> cleanTitle t = t)
  /\ (endsWith (cleanTitle t) YouTube = false ->
      cleanTitle (cleanTitle t) = cleanTitle t).
Proof.
  split; [|split].
  - intros p w1 w2. apply cleanTitle_suffixed.
  - apply cleanTitle_not_suffixed.
  - intros Hend. apply cleanTitle_not_suffixed.
    intros p w1 w2 Hs. apply suffixed_endsWith in Hs. congruence.
Qed.

(** The title of a tab, cleaned twice: an instance of C3 as amended. *)
Lemma cleanTitle_once_witness :
  cleanTitle (js "Induction explained  -   YouTube") = js "Induction explained"
  /\ cleanTitle (cleanTitle (js "Induction explained  -   YouTube"))
     = cleanTitle (js "Induction explained  -   YouTube").
Proof.
  destruct (cleanTitle_once (js "Induction explained  -   YouTube"))
    as (Hstrip & _ & Hidem).
  split.
  - apply (Hstrip (js "Induction explained") (js "  ") (js "   ")).
    + repeat split; reflexivity.
    + reflexivity.
  - apply Hidem. reflexivity.
Defined.

(** C3 fails on a title that ends in the suffix twice: the first clean-up
    leaves a title that the second one shortens again, in the popup and
    in the content script. *)
Lemma cleanTitle_not_idempotent :
  cleanTitle (js "Talks - YouTube - YouTube") = js "Talks - YouTube"
  /\ cleanTitle (cleanTitle (js "Talks - YouTube - YouTube")) = js "Talks"
  /\ cleanTitle (cleanTitle (js "Talks - YouTube - YouTube"))
     <> cleanTitle (js "Talks - YouTube - YouTube")
  /\ cleanTitle_content (cleanTitle_content (js "Talks - YouTube - YouTube"))
     <> cleanTitle_content (js "Talks - YouTube - YouTube").
Proof. repeat split; try reflexivity; vm_compute; discriminate. Qed.

End TitleFacts.

(** ** Panels *)

Module PanelFacts.
Import Popup.







End PanelFacts.

(** ** Notifications *)

Module NotificationFacts.
Import Popup.

Lemma banners_after_ok n n' :
  banners_after n n' -> both_visible n = false -> both_visible n' = false.
Proof.
  unfold both_visible.
  intros [->|He Hs|Hs He|[[He Hs]|[Hs He]]] Hok; auto.
  - rewrite Hs. apply andb_false_r.
  - rewrite He. reflexivity.
  - rewrite He. reflexivity.
  - rewrite Hs. apply andb_false_r.
Qed.

Local Ltac banners :=
  first [ apply banners_same; reflexivity
        | apply banners_error; reflexivity
        | apply banners_success; reflexivity ].

Lemma displayQuizResults_notes st :
  notes (document (fst (displayQuizResults st))) = notes (document st).
Proof.
  unfold displayQuizResults.
  destruct (mark_questions _ _ _ _) as [els [message|]]; reflexivity.
Qed.

Lemma sendChatMessage_notes st :
  notes (document (sendChatMessage st)) = notes (document st).
Proof.
  unfold sendChatMessage.
  destruct (negb _); [reflexivity|].
  destruct (append_message _ _) as [key c].
  destruct (currentVideo _); reflexivity.
Qed.

Lemma step_banners newURL st e st' :
  step newURL st e = Some st' ->
  banners_after (notes (document st)) (notes (document st')).
Proof.
  destruct e; simpl; intros Hstep.
  - injection Hstep as <-. banners.
  - destruct (timers (env st) !! i) as [t|]; [|discriminate].
    destruct (due t <=? now (env st)); [|discriminate].
    injection Hstep as <-. apply banners_hidden.
    destruct (hides t); [left|right]; split; reflexivity.
  - destruct (tabsQueryPending (env st)); [|discriminate].
    injection Hstep as <-. unfold loadVideoInfo.
    destruct o as [message|[tab|]]; try banners.
    destruct (negb _); [banners|].
    destruct (Video.extractVideoInfo _ _ _); banners.
  - injection Hstep as <-. banners.
  - injection Hstep as <-. unfold generateQuiz.
    destruct (currentVideo (this st)); banners.
  - injection Hstep as <-. unfold generateSummary.
    destruct (currentVideo (this st)); banners.
  - injection Hstep as <-. unfold extractTopics.
    destruct (currentVideo (this st)); banners.
  - injection Hstep as <-. unfold startChat.
    destruct (currentVideo (this st)); banners.
  - injection Hstep as <-. unfold submitQuiz.
    destruct (_ || _); [banners|].
    destruct (currentVideo (this (showLoading true st))) as [video|];
      [destruct (quizData (this (showLoading true st))) as [data|]|];
      banners.
  - destruct (option_clickable _ _ _); [|discriminate].
    injection Hstep as <-. banners.
  - destruct (chatInput_disabled _); [discriminate|].
    injection Hstep as <-. banners.
  - destruct (sendChatBtn_disabled _); [discriminate|].
    injection Hstep as <-. rewrite sendChatMessage_notes. banners.
  - destruct (chatInput_disabled _); [discriminate|].
    injection Hstep as <-. rewrite sendChatMessage_notes. banners.
  - destruct (inflight (env st) !! i) as [request|]; [|discriminate].
    destruct (and_then request); simpl in Hstep.
    + unfold after_generateQuiz in Hstep.
      destruct (makeApiCall_result o) as [[]|message]; try discriminate;
        injection Hstep as <-; banners.
    + unfold after_verify in Hstep.
      destruct (makeApiCall_result o) as [response|message].
      * destruct (displayQuizResults _) as [st1 [message|]] eqn:Hres;
          injection Hstep as <-; banners.
      * injection Hstep as <-; banners.
    + unfold after_summary in Hstep.
      destruct (makeApiCall_result o) as [[]|message]; try discriminate;
        injection Hstep as <-; banners.
    + unfold after_topics in Hstep.
      destruct (makeApiCall_result o) as [[]|message]; try discriminate;
        injection Hstep as <-; banners.
    + unfold after_chat in Hstep.
      destruct (makeApiCall_result o) as [[]|message]; try discriminate;
        injection Hstep as <-; banners.
Qed.

Lemma run_banners newURL es : forall st st',
  run newURL st es = Some st' ->
  both_visible (notes (document st)) = false ->
  both_visible (notes (document st')) = false.
Proof.
  induction es as [|e es IH]; simpl; intros st st' Hrun Hok.
  - injection Hrun as <-. exact Hok.
  - destruct (step newURL st e) as [st1|] eqn:Hstep; [|discriminate].
    apply (IH _ _ Hrun).
    exact (banners_after_ok _ _ (step_banners _ _ _ _ Hstep) Hok).
Qed.

(** C7: in every state the popup reaches from a document that does not
    show both banners, the error banner and the success banner are not
    both visible. [showError] shows the error banner, hides the success
    banner at once and queues a timer 5000 ms ahead; [showSuccess] does
    the converse with 3000 ms; a timer that fires leaves each banner as
    it was or hidden, and never changes a text. *)
Theorem banners_never_both newURL (page : Dom) (t0 : N) (es : list event)
    (st : State) :
  both_visible (notes page) = false ->
  run newURL (constructor page t0) es = Some st ->
  both_visible (notes (document st)) = false
  /\ (forall message,
        error_visible (showError message st) = true
        /\ success_visible (showError message st) = false
        /\ timers (env (showError message st))
           = timers (env st)
             ++ [{| due := now (env st) + 5000; hides := ErrorBanner |}])
  /\ (forall message,
        success_visible (showSuccess message st) = true
        /\ error_visible (showSuccess message st) = false
        /\ timers (env (showSuccess message st))
           = timers (env st)
             ++ [{| due := now (env st) + 3000; hides := SuccessBanner |}])
  /\ (forall i st',
        step newURL st (TimerFires i) = Some st' ->
        (error_visible st' = true -> error_visible st = true)
        /\ (success_visible st' = true -> success_visible st = true)
        /\ banner_text (errorMessage (notes (document st')))
           = banner_text (errorMessage (notes (document st)))
        /\ banner_text (successMessage (notes (document st')))
           = banner_text (successMessage (notes (document st)))).
Proof.
  intros Hpage Hrun. split; [|split; [|split]].
  - exact (run_banners _ _ _ _ Hrun Hpage).
  - intros message. repeat split.
  - intros message. repeat split.
  - intros i st' Hstep. simpl in Hstep.
    destruct (timers (env st) !! i) as [t|]; [|discriminate].
    destruct (due t <=? now (env st)); [|discriminate].
    injection Hstep as <-.
    destruct (hides t); repeat split; auto; discriminate.
Qed.

(** The sample popup after the quiz arrived: an instance of C7. *)
Lemma banners_never_both_witness :
  both_visible (notes (document Sample.answered)) = false.
Proof.
  refine (proj1 (banners_never_both Url.parse Sample.page 0
                   (Sample.opened
                    ++ [ClickGenerateQuiz;
                        FetchSettles 0 (Ok (JQuiz Sample.quiz_of_two))])
                   Sample.answered _ _));
    vm_compute; reflexivity.
Defined.

End NotificationFacts.

(** ** Submitting without an answer *)

Module SubmitFacts.
Import Popup.

(** C8: [submitQuiz] with an empty [userAnswers] is [showError] with the
    validation message and nothing else: no request is issued, the error
    banner is shown with the message, the loading indicator is not
    touched, and the controller's fields, the quiz, the chat, the panels
    and the rest of the document are as before. *)
Theorem submit_without_answers (st : State) :
  userAnswers (this st) = ∅ ->
  submitQuiz st = showError no_answer_message st
  /\ inflight (env (submitQuiz st)) = inflight (env st)
  /\ error_visible (submitQuiz st) = true
  /\ banner_text (errorMessage (notes (document (submitQuiz st))))
     = no_answer_message
  /\ this (submitQuiz st) = this st
  /\ quiz (document (submitQuiz st)) = quiz (document st)
  /\ chat (document (submitQuiz st)) = chat (document st)
  /\ panels (document (submitQuiz st)) = panels (document st)
  /\ loadingUi (document (submitQuiz st)) = loadingUi (document st)
  /\ info (document (submitQuiz st)) = info (document st).
Proof.
  intros Hempty.
  assert (H : submitQuiz st = showError no_answer_message st).
  { unfold submitQuiz. rewrite Hempty, map_size_empty. simpl.
    rewrite orb_true_r. reflexivity. }
  rewrite H. repeat split.
Qed.

(** The freshly shown quiz, submitted at once: an instance of C8. *)
Lemma submit_without_answers_witness :
  submitQuiz Sample.answered = showError no_answer_message Sample.answered
  /\ inflight (env (submitQuiz Sample.answered)) = inflight (env Sample.answered).
Proof.
  destruct (submit_without_answers Sample.answered) as (H1 & H2 & _).
  - vm_compute; reflexivity.
  - exact (conj H1 H2).
Defined.

End SubmitFacts.

(** ** The text of the topics *)

Module TopicsFacts.
Import Popup.

Lemma sendChatMessage_topics st :
  topicsContent (info (document (sendChatMessage st)))
  = topicsContent (info (document st)).
Proof.
  unfold sendChatMessage.
  destruct (negb _); [reflexivity|].
  destruct (append_message _ _) as [key c].
  destruct (currentVideo _); reflexivity.
Qed.

Local Ltac unchanged := solve [ left; reflexivity ].

(** What an event does to the topics container: a 2xx answer to a topics
    request fills it with the topics of the answer, and any other event
    leaves it as it is. *)
Lemma step_topics newURL st e st' :
  step newURL st e = Some st' ->
  topicsContent (info (document st')) = topicsContent (info (document st))
  \/ exists i topics,
       e = FetchSettles i (Ok (JTopics topics))
       /\ topicsContent (info (document st')) = map topic_html topics.
Proof.
  destruct e; simpl; intros Hstep.
  - injection Hstep as <-. unchanged.
  - destruct (timers (env st) !! i) as [t|]; [|discriminate].
    destruct (due t <=? now (env st)); [|discriminate].
    injection Hstep as <-. destruct (hides t); unchanged.
  - destruct (tabsQueryPending (env st)); [|discriminate].
    injection Hstep as <-. unfold loadVideoInfo.
    destruct o as [message|[tab|]]; try unchanged.
    destruct (negb _); [unchanged|].
    destruct (Video.extractVideoInfo _ _ _); unchanged.
  - injection Hstep as <-. unchanged.
  - injection Hstep as <-. unfold generateQuiz.
    destruct (currentVideo (this st)); unchanged.
  - injection Hstep as <-. unfold generateSummary.
    destruct (currentVideo (this st)); unchanged.
  - injection Hstep as <-. unfold extractTopics.
    destruct (currentVideo (this st)); unchanged.
  - injection Hstep as <-. unfold startChat.
    destruct (currentVideo (this st)); unchanged.
  - injection Hstep as <-. unfold submitQuiz.
    destruct (_ || _); [unchanged|].
    destruct (currentVideo (this (showLoading true st))) as [video|];
      [destruct (quizData (this (showLoading true st))) as [data|]|];
      unchanged.
  - destruct (option_clickable _ _ _); [|discriminate].
    injection Hstep as <-. unchanged.
  - destruct (chatInput_disabled _); [discriminate|].
    injection Hstep as <-. unchanged.
  - destruct (sendChatBtn_disabled _); [discriminate|].
    injection Hstep as <-. left. apply sendChatMessage_topics.
  - destruct (chatInput_disabled _); [discriminate|].
    injection Hstep as <-. left. apply sendChatMessage_topics.
  - destruct (inflight (env st) !! i) as [request|]; [|discriminate].
    destruct (and_then request); simpl in Hstep.
    + unfold after_generateQuiz in Hstep.
      destruct (makeApiCall_result o) as [[]|message]; try discriminate;
        injection Hstep as <-; unchanged.
    + unfold after_verify in Hstep.
      destruct (makeApiCall_result o) as [response|message];
        [|injection Hstep as <-; unchanged].
      unfold displayQuizResults in Hstep.
      destruct (mark_questions _ _ _ _) as [els [message|]];
        injection Hstep as <-; unchanged.
    + unfold after_summary in Hstep.
      destruct (makeApiCall_result o) as [[]|message]; try discriminate;
        injection Hstep as <-; unchanged.
    + unfold after_topics in Hstep.
      destruct o as [message|status|message|[]]; try discriminate;
        injection Hstep as <-; try unchanged.
      right. eexists _, _. split; reflexivity.
    + unfold after_chat in Hstep.
      destruct (makeApiCall_result o) as [[]|message]; try discriminate;
        injection Hstep as <-; unchanged.
Qed.

(** As long as the topics of the answers are plain text, the topics
    container holds no markup of the backend. *)
Lemma run_topics_plain newURL (page : Dom) es : forall st st',
  topics_plain page (document st) ->
  forallb plain_event es = true ->
  run newURL st es = Some st' ->
  topics_plain page (document st').
Proof.
  induction es as [|e es IH]; simpl; intros st st' Hinv Hplain Hrun.
  - injection Hrun as <-. exact Hinv.
  - destruct (step newURL st e) as [s1|] eqn:Hstep; [|discriminate].
    apply andb_true_iff in Hplain as [He Hes].
    apply (IH s1 st'); [|exact Hes|exact Hrun].
    destruct (step_topics _ _ _ _ Hstep) as [Hsame|(i & topics & -> & Hnew)].
    + unfold topics_plain. rewrite Hsame. exact Hinv.
    + right. exists topics. split; [exact Hnew|exact He].
Qed.

End TopicsFacts.

(** ** Grading *)

Module QuizFacts.
Import Popup.

Lemma contains_add_other c d cl :
  String.eqb c d = false ->
  classList_contains c (classList_add d cl) = classList_contains c cl.
Proof.
  intros Hne. unfold classList_add, classList_contains.
  destruct (existsb (String.eqb d) cl); [reflexivity|].
  rewrite existsb_app. simpl. rewrite Hne, !orb_false_r. reflexivity.
Qed.

Lemma contains_add_same c cl :
  classList_contains c (classList_add c cl) = true.
Proof.
  unfold classList_add, classList_contains.
  destruct (existsb (String.eqb c) cl) eqn:H; [exact H|].
  rewrite existsb_app. simpl. rewrite String.eqb_refl, orb_true_r.
  reflexivity.
Qed.

Lemma contains_remove_other c d cl :
  String.eqb d c = false ->
  classList_contains c (classList_remove d cl) = classList_contains c cl.
Proof.
  intros Hne. unfold classList_remove, classList_contains.
  induction cl as [|x cl IH]; simpl; [reflexivity|].
  destruct (String.eqb_spec d x) as [<-|Hx]; simpl.
  - rewrite IH, String.eqb_sym, Hne. reflexivity.
  - rewrite IH. reflexivity.
Qed.

(** Selecting and unselecting leave the mark of an option alone. *)
Lemma mark_add_selected opt :
  mark_of (set_option_classes
             (classList_add "selected" (option_classes opt)) opt)
  = mark_of opt.
Proof.
  unfold mark_of. simpl. rewrite !contains_add_other by reflexivity.
  reflexivity.
Qed.

Lemma mark_remove_selected opt :
  mark_of (set_option_classes
             (classList_remove "selected" (option_classes opt)) opt)
  = mark_of opt.
Proof.
  unfold mark_of. simpl. rewrite !contains_remove_other by reflexivity.
  reflexivity.
Qed.

(** One option graded: whether it was neutral or already carried the
    mark of the rule, it carries the mark of the rule afterwards. *)
Lemma mark_option_expected c u j opt :
  mark_of opt = Neutral \/ mark_of opt = expected_mark c u j ->
  mark_of (mark_option c u j opt) = expected_mark c u j
  /\ option_pointerEvents (mark_option c u j opt) = PointerNone
  /\ option_text (mark_option c u j opt) = option_text opt.
Proof.
  intros Hpre. unfold mark_option, expected_mark in *.
  destruct (Z.of_nat j =? c)%Z eqn:Hc.
  - repeat split. unfold mark_of in *. simpl.
    rewrite contains_add_same, contains_add_other by reflexivity.
    destruct (classList_contains "correct" (option_classes opt)),
             (classList_contains "incorrect" (option_classes opt));
      destruct Hpre; congruence.
  - assert (Hu : is_user_answer j u && differs_from u c = bool_decide (u = Some j)).
    { symmetry. destruct u as [u|]; cbn [is_user_answer differs_from].
      - destruct (Nat.eqb_spec j u) as [->|Hne].
        + rewrite Hc. apply bool_decide_eq_true_2. reflexivity.
        + apply bool_decide_eq_false_2. congruence.
      - apply bool_decide_eq_false_2. congruence. }
    rewrite Hu. destruct (bool_decide (u = Some j)).
    + repeat split. unfold mark_of in *. simpl.
      rewrite contains_add_same, contains_add_other by reflexivity.
      destruct (classList_contains "correct" (option_classes opt)),
               (classList_contains "incorrect" (option_classes opt));
        destruct Hpre; congruence.
    + repeat split. unfold mark_of in *. simpl.
      destruct Hpre as [H|H]; exact H.
Qed.

(** [displayQuiz] renders the questions, none graded. *)
Lemma rendered_aligned (qs : list Question) :
  aligned fresh_option qs (imap render_question qs).
Proof.
  split; [apply length_imap|].
  intros i q el Hq Hel. rewrite list_lookup_imap, Hq in Hel.
  injection Hel as <-. simpl. split; [apply length_imap|].
  intros j opt Hopt. rewrite list_lookup_imap in Hopt.
  destruct (options q !! j) as [o|] eqn:Ho; simpl in Hopt; [|discriminate].
  injection Hopt as <-. repeat split. discriminate.
Qed.

(** A click keeps the questions ungraded. *)
Lemma click_aligned (qs : list Question) (els : list QuestionEl) i j :
  aligned fresh_option qs els ->
  aligned fresh_option qs (alter (select_in j) i els).
Proof.
  intros [Hlen Hall]. split; [rewrite length_alter; exact Hlen|].
  intros i' q el Hq Hel.
  destruct (decide (i = i')) as [<-|Hne].
  - rewrite list_lookup_alter_eq in Hel.
    apply fmap_Some in Hel as (el0 & Hel0 & ->).
    destruct (Hall _ _ _ Hq Hel0) as [Hlen0 Hopts].
    unfold select_in. simpl. split.
    + rewrite length_alter, length_map. exact Hlen0.
    + intros j' opt Hopt.
      assert (Hsrc : exists opt0, question_options el0 !! j' = Some opt0
                /\ mark_of opt = mark_of opt0
                /\ option_pointerEvents opt = option_pointerEvents opt0
                /\ option_text opt = option_text opt0).
      { destruct (decide (j = j')) as [<-|Hj].
        - rewrite list_lookup_alter_eq, list_lookup_fmap in Hopt.
          apply fmap_Some in Hopt as (opt1 & Hopt & ->).
          apply fmap_Some in Hopt as (opt0 & Hopt & ->).
          exists opt0. repeat split; [exact Hopt|].
          rewrite mark_add_selected. apply mark_remove_selected.
        - rewrite list_lookup_alter_ne, list_lookup_fmap in Hopt by exact Hj.
          apply fmap_Some in Hopt as (opt0 & Hopt & ->).
          exists opt0. repeat split; [exact Hopt|].
          apply mark_remove_selected. }
      destruct Hsrc as (opt0 & Hopt0 & Hm & Hp & Ht).
      destruct (Hopts _ _ Hopt0) as [[Hmark Hptr] Htext].
      unfold fresh_option. rewrite Hm, Hp, Ht. auto.
  - rewrite list_lookup_alter_ne in Hel by exact Hne. eauto.
Qed.

(** Once graded, no option takes a click. *)
Lemma graded_not_clickable (st : State) answers data i j :
  quizData (this st) = Some data ->
  aligned (graded_option answers) (questions data)
    (quizContent (quiz (document st))) ->
  option_clickable i j st = false.
Proof.
  intros Hdata [Hlen Hall]. unfold option_clickable.
  destruct (quizContent (quiz (document st)) !! i) as [el|] eqn:Hel;
    [|reflexivity].
  destruct (question_options el !! j) as [opt|] eqn:Hopt; [|reflexivity].
  destruct (lookup_lt_is_Some_2 (questions data) i) as [q Hq].
  { rewrite <- Hlen. eapply lookup_lt_Some; eauto. }
  destruct (Hall _ _ _ Hq Hel) as [_ Hopts].
  destruct (Hopts _ _ Hopt) as [[_ Hptr] _]. rewrite Hptr. reflexivity.
Qed.

(** The loop of [displayQuizResults] from [index] on: when every
    element has its question and each of its options is neutral or
    already marked by the rule, the loop ends without an error and
    leaves every option marked by the rule. *)
Lemma mark_questions_graded data answers : forall els index,
  (forall k el, els !! k = Some el ->
     exists q, questions data !! (index + k)%nat = Some q
       /\ options_aligned
            (fun j opt =>
               mark_of opt = Neutral
               \/ mark_of opt
                  = expected_mark (correct_answer q)
                      (answers !! (index + k)%nat) j)
            (options q) (question_options el)) ->
  exists els',
    mark_questions (Some data) answers index els = (els', None)
    /\ length els' = length els
    /\ forall k el', els' !! k = Some el' ->
         exists q, questions data !! (index + k)%nat = Some q
           /\ options_aligned (graded_option answers q (index + k)%nat)
                (options q) (question_options el').
Proof.
  induction els as [|el els IH]; intros index Hpre.
  - exists []. repeat split. intros k el' Hk. discriminate.
  - destruct (Hpre 0%nat el eq_refl) as (q & Hq & Hlen & Hopts).
    rewrite Nat.add_0_r in Hq, Hopts.
    destruct (IH (S index)) as (rest & Hrest & Hlen' & Hgraded).
    { intros k el' Hk. specialize (Hpre (S k) el' Hk).
      rewrite Nat.add_succ_r in Hpre. exact Hpre. }
    eexists. simpl. rewrite Hq, Hrest. split; [reflexivity|].
    split; [simpl; congruence|].
    intros [|k] el' Hk; simpl in Hk.
    + injection Hk as <-. exists q. rewrite Nat.add_0_r.
      split; [exact Hq|]. simpl. split; [rewrite length_imap; exact Hlen|].
      intros j opt Hj. rewrite list_lookup_imap in Hj.
      apply fmap_Some in Hj as (opt0 & Hj & ->).
      destruct (Hopts _ _ Hj) as [Hmark Htext].
      destruct (mark_option_expected _ _ _ _ Hmark) as (Hm & Hp & Ht).
      unfold graded_option. rewrite Ht. auto.
    + rewrite Nat.add_succ_r. apply Hgraded. exact Hk.
Qed.

Lemma displayQuizResults_graded (st : State) data :
  quizData (this st) = Some data ->
  quiz_consistent st ->
  exists els,
    displayQuizResults st
    = (on_quiz (set_submitQuizBtn DisplayNone)
         (on_quiz (set_quizContent els) st), None)
    /\ aligned (graded_option (userAnswers (this st))) (questions data) els.
Proof.
  intros Hdata Hinv. unfold quiz_consistent in Hinv. rewrite Hdata in Hinv.
  destruct (mark_questions_graded data (userAnswers (this st))
              (quizContent (quiz (document st))) 0)
    as (els & Hels & Hlen & Hgraded).
  { intros k el Hk.
    destruct Hinv as [[Hlen Hall]|[Hlen Hall]];
      (destruct (lookup_lt_is_Some_2 (questions data) k) as [q Hq];
       [rewrite <- Hlen; eapply lookup_lt_Some; eauto|]);
      exists q; (split; [exact Hq|]);
      destruct (Hall _ _ _ Hq Hk) as [Hl Hopts];
      (split; [exact Hl|]); intros j opt Hj;
      destruct (Hopts _ _ Hj) as [[Hm _] Ht]; auto. }
  exists els. unfold displayQuizResults. rewrite Hdata, Hels.
  split; [reflexivity|].
  assert (Hlen0 : length els = length (questions data)).
  { rewrite Hlen. destruct Hinv as [[H _]|[H _]]; exact H. }
  split; [exact Hlen0|].
  intros i q el Hq Hel. destruct (Hgraded _ _ Hel) as (q' & Hq' & Hopts).
  simpl in Hq', Hopts. rewrite Hq in Hq'. injection Hq' as <-. exact Hopts.
Qed.

Lemma displayQuizResults_no_quiz (st : State) :
  quizData (this st) = None ->
  quizContent (quiz (document st)) = [] ->
  displayQuizResults st
  = (on_quiz (set_submitQuizBtn DisplayNone) (on_quiz (set_quizContent []) st),
     None).
Proof.
  intros Hdata Hnil. unfold displayQuizResults. rewrite Hdata, Hnil.
  reflexivity.
Qed.

(** Consistency only looks at the quiz of the controller and at the
    question elements. *)
Lemma quiz_consistent_frame (st st' : State) :
  quizData (this st') = quizData (this st) ->
  userAnswers (this st') = userAnswers (this st) ->
  quizContent (quiz (document st')) = quizContent (quiz (document st)) ->
  quiz_consistent st -> quiz_consistent st'.
Proof.
  unfold quiz_consistent. intros -> -> ->. auto.
Qed.

Lemma sendChatMessage_quiz st :
  this (sendChatMessage st) = this st
  /\ quiz (document (sendChatMessage st)) = quiz (document st).
Proof.
  unfold sendChatMessage.
  destruct (negb _); [split; reflexivity|].
  destruct (append_message _ _) as [key c].
  destruct (currentVideo _); split; reflexivity.
Qed.

Lemma after_verify_consistent o st st' :
  quiz_consistent st -> after_verify o st = Some st' -> quiz_consistent st'.
Proof.
  intros Hinv Hstep. unfold after_verify in Hstep.
  destruct (makeApiCall_result o) as [response|message].
  - destruct (quizData (this st)) as [data|] eqn:Hdata.
    + destruct (displayQuizResults_graded st data Hdata Hinv)
        as (els & Hres & Hgraded).
      rewrite Hres in Hstep. injection Hstep as <-.
      unfold quiz_consistent. cbn. rewrite Hdata. right. exact Hgraded.
    + unfold quiz_consistent in Hinv. rewrite Hdata in Hinv.
      rewrite (displayQuizResults_no_quiz st Hdata Hinv) in Hstep.
      injection Hstep as <-.
      unfold quiz_consistent. cbn. rewrite Hdata. reflexivity.
  - injection Hstep as <-.
    apply (quiz_consistent_frame st); auto.
Qed.

Local Ltac framed Hinv :=
  solve [ eapply quiz_consistent_frame; [| | |exact Hinv]; reflexivity ].

(** Every turn of the event loop keeps the quiz consistent. *)
Lemma step_quiz_consistent newURL st e st' :
  quiz_consistent st -> step newURL st e = Some st' -> quiz_consistent st'.
Proof.
  intros Hinv. destruct e; simpl; intros Hstep.
  - injection Hstep as <-. framed Hinv.
  - destruct (timers (env st) !! i) as [t|]; [|discriminate].
    destruct (due t <=? now (env st)); [|discriminate].
    injection Hstep as <-. destruct (hides t); framed Hinv.
  - destruct (tabsQueryPending (env st)); [|discriminate].
    injection Hstep as <-. unfold loadVideoInfo.
    destruct o as [message|[tab|]]; try framed Hinv.
    destruct (negb _); [framed Hinv|].
    destruct (Video.extractVideoInfo _ _ _); framed Hinv.
  - injection Hstep as <-. framed Hinv.
  - injection Hstep as <-. unfold generateQuiz.
    destruct (currentVideo (this st)); framed Hinv.
  - injection Hstep as <-. unfold generateSummary.
    destruct (currentVideo (this st)); framed Hinv.
  - injection Hstep as <-. unfold extractTopics.
    destruct (currentVideo (this st)); framed Hinv.
  - injection Hstep as <-. unfold startChat.
    destruct (currentVideo (this st)); framed Hinv.
  - injection Hstep as <-. unfold submitQuiz.
    destruct (_ || _); [framed Hinv|].
    destruct (currentVideo (this (showLoading true st))) as [video|];
      [destruct (quizData (this (showLoading true st))) as [data|]|];
      framed Hinv.
  - destruct (option_clickable index optionIndex st) eqn:Hclick;
      [|discriminate].
    injection Hstep as <-.
    unfold quiz_consistent in *. cbn.
    destruct (quizData (this st)) as [data|] eqn:Hdata.
    + destruct Hinv as [Hfresh|Hgraded].
      * left. apply click_aligned. exact Hfresh.
      * rewrite (graded_not_clickable st _ data _ _ Hdata Hgraded) in Hclick.
        discriminate.
    + unfold option_clickable in Hclick. rewrite Hinv in Hclick.
      discriminate.
  - destruct (chatInput_disabled _); [discriminate|].
    injection Hstep as <-. framed Hinv.
  - destruct (sendChatBtn_disabled _); [discriminate|].
    injection Hstep as <-. destruct (sendChatMessage_quiz st) as [Ht Hq].
    eapply quiz_consistent_frame; [| | |exact Hinv]; congruence.
  - destruct (chatInput_disabled _); [discriminate|].
    injection Hstep as <-. destruct (sendChatMessage_quiz st) as [Ht Hq].
    eapply quiz_consistent_frame; [| | |exact Hinv]; congruence.
  - destruct (inflight (env st) !! i) as [request|]; [|discriminate].
    destruct (and_then request); simpl in Hstep.
    + unfold after_generateQuiz in Hstep.
      destruct (makeApiCall_result o) as [[]|message]; try discriminate;
        injection Hstep as <-.
      * left. apply rendered_aligned.
      * framed Hinv.
    + eapply after_verify_consistent; [|exact Hstep].
      eapply quiz_consistent_frame; [| | |exact Hinv]; reflexivity.
    + unfold after_summary in Hstep.
      destruct (makeApiCall_result o) as [[]|message]; try discriminate;
        injection Hstep as <-; framed Hinv.
    + unfold after_topics in Hstep.
      destruct (makeApiCall_result o) as [[]|message]; try discriminate;
        injection Hstep as <-; framed Hinv.
    + unfold after_chat in Hstep.
      destruct (makeApiCall_result o) as [[]|message]; try discriminate;
        injection Hstep as <-; framed Hinv.
Qed.

Lemma run_quiz_consistent newURL es : forall st st',
  quiz_consistent st -> run newURL st es = Some st' -> quiz_consistent st'.
Proof.
  induction es as [|e es IH]; simpl; intros st st' Hinv Hrun.
  - injection Hrun as <-. exact Hinv.
  - destruct (step newURL st e) as [st1|] eqn:Hstep; [|discriminate].
    eapply IH; [|exact Hrun]. eapply step_quiz_consistent; eauto.
Qed.



Example sample_marks :
  (mark_of <$> option_at Sample.graded 0 0) = Some Neutral
  /\ (mark_of <$> option_at Sample.graded 0 1) = Some Correct
  /\ (mark_of <$> option_at Sample.graded 0 2) = Some Incorrect
  /\ (mark_of <$> option_at Sample.graded 1 0) = Some Correct
  /\ (mark_of <$> option_at Sample.graded 1 1) = Some Neutral.
Proof. repeat split; vm_compute; reflexivity. Qed.

End QuizFacts.

(** ** Chat *)

Module ChatFacts.
Import Popup.

Lemma bot_key_fresh st message : bot_key st message <> user_key st.
Proof.
  unfold bot_key. intros Heq.
  apply (is_fresh (dom (<[user_key st := user_node message]>
                          (nodes (chat (document st)))))).
  rewrite Heq, dom_insert_L. set_solver.
Qed.


(** The last two entries of a transcript that ends with two keys. *)
Lemma transcript_tail (st : State) (earlier : list nat) (k1 k2 : nat) :
  chatMessages (chat (document st)) = (earlier ++ [k1]) ++ [k2] ->
  drop (length earlier) (transcript st)
  = [(length earlier, default no_node (nodes (chat (document st)) !! k1));
     (S (length earlier), default no_node (nodes (chat (document st)) !! k2))].
Proof.
  intros Hkeys. unfold transcript. rewrite Hkeys, <- app_assoc, imap_app.
  rewrite drop_app_length' by (rewrite length_imap; reflexivity).
  simpl. rewrite Nat.add_0_r, Nat.add_1_r. reflexivity.
Qed.

(** *** Requests in flight *)




(** A request of a main action joins the queue: the chat requests are
    the same. *)
Lemma chat_inflight_push (st : State) endpoint data k :
  is_chat_request {| endpoint := endpoint; request_body := data;
                     and_then := k |} = false ->
  chat_inflight (makeApiCall endpoint data k st) = chat_inflight st.
Proof.
  intros Hk. unfold chat_inflight, makeApiCall. cbn.
  rewrite List.filter_app. cbn [List.filter]. rewrite Hk.
  apply app_nil_r.
Qed.

(** *** One exchange *)


Local Ltac kept Hinv :=
  solve [ destruct Hinv as [[Hchat Hreq]|Hnone];
          [ left; split;
            [ exact Hchat
            | first [ exact Hreq
                    | etransitivity;
                      [apply chat_inflight_push; reflexivity|exact Hreq] ] ]
          | right;
            first [ exact Hnone
                  | etransitivity;
                    [apply chat_inflight_push; reflexivity|exact Hnone] ] ] ].






(** *** One chat request at a time *)










Example sample_chat_pending :
  length (chat_inflight Sample.sent) = 1%nat
  /\ length (transcript Sample.sent) = 2%nat
  /\ sendChatMessage Sample.sent = Sample.sent.
Proof. repeat split; vm_compute; reflexivity. Qed.

End ChatFacts.

(** ** Exit paths of the actions *)

Module ActionFacts.
Import Popup.

(** When the request of a main action (quiz, verify, summary, topics)
    settles, by a failure or by a 2xx answer with the body of its
    endpoint, the handler runs to its end and leaves the loading
    indicator hidden and the controls interactive again. *)
Theorem loading_cleared newURL (st : State) (i : nat) (request : Request)
    (o : fetch_outcome) :
  inflight (env st) !! i = Some request ->
  is_chat_request request = false ->
  expected (and_then request) o = true ->
  exists st',
    step newURL st (FetchSettles i o) = Some st'
    /\ loadingUi (document st') = idle_ui.
Proof.
  intros Hreq Hk Hexpected. simpl. rewrite Hreq.
  unfold is_chat_request in Hk. unfold expected in Hexpected.
  destruct (and_then request); try discriminate; simpl.
  - unfold after_generateQuiz.
    destruct (makeApiCall_result o) as [[]|message]; try discriminate;
      eexists; split; reflexivity.
  - unfold after_verify.
    destruct (makeApiCall_result o) as [response|message].
    + destruct (displayQuizResults _) as [st1 [message|]];
        eexists; split; reflexivity.
    + eexists; split; reflexivity.
  - unfold after_summary.
    destruct (makeApiCall_result o) as [[]|message]; try discriminate;
      eexists; split; reflexivity.
  - unfold after_topics.
    destruct (makeApiCall_result o) as [[]|message]; try discriminate;
      eexists; split; reflexivity.
Qed.

(** The requests of the sample popup, answered or refused: instances. *)
Lemma loading_cleared_witness :
  (exists st',
      step Url.parse Sample.asked (FetchSettles 0 (Ok (JQuiz Sample.quiz_of_two)))
      = Some st'
      /\ loadingUi (document st') = idle_ui)
  /\ (exists st',
        step Url.parse Sample.submitted (FetchSettles 0 (Ok JVerify)) = Some st'
        /\ loadingUi (document st') = idle_ui)
  /\ (exists st',
        step Url.parse Sample.summarising
          (FetchSettles 0 (Ok (JSummary (js "A talk on induction."))))
        = Some st'
        /\ loadingUi (document st') = idle_ui)
  /\ (exists st',
        step Url.parse Sample.listing (FetchSettles 0 (HttpError 503))
        = Some st'
        /\ loadingUi (document st') = idle_ui).
Proof.
  split; [|split; [|split]].
  - apply (loading_cleared Url.parse Sample.asked 0 Sample.quiz_request);
      vm_compute; reflexivity.
  - apply (loading_cleared Url.parse Sample.submitted 0 Sample.verify_request);
      vm_compute; reflexivity.
  - apply (loading_cleared Url.parse Sample.summarising 0
             Sample.summary_request); vm_compute; reflexivity.
  - apply (loading_cleared Url.parse Sample.listing 0 Sample.topics_request);
      vm_compute; reflexivity.
Defined.

(** A main action whose request fails runs to its end and changes
    nothing but the feedback: the error banner shows the message of
    [makeApiCall], the success banner is hidden, and the controller's
    fields, the quiz, the panels, the chat and the rest of the document
    are as they were. *)
Theorem failed_action_keeps_state newURL (st : State) (i : nat)
    (request : Request) (o : fetch_outcome) (message : list N) :
  inflight (env st) !! i = Some request ->
  is_chat_request request = false ->
  failure_message o = Some message ->
  exists st',
    step newURL st (FetchSettles i o) = Some st'
    /\ errorMessage (notes (document st'))
       = {| banner_text := message; banner_display := DisplayBlock |}
    /\ success_visible st' = false
    /\ this st' = this st
    /\ quiz (document st') = quiz (document st)
    /\ panels (document st') = panels (document st)
    /\ chat (document st') = chat (document st)
    /\ info (document st') = info (document st)
    /\ inflight (env st') = delete i (inflight (env st)).
Proof.
  intros Hreq Hk Hfail. simpl. rewrite Hreq.
  unfold failure_message in Hfail. unfold is_chat_request in Hk.
  destruct (and_then request); try discriminate; simpl;
    unfold after_generateQuiz, after_verify, after_summary, after_topics;
    destruct (makeApiCall_result o) as [response|message'];
    try discriminate; injection Hfail as ->;
    eexists; (split; [reflexivity|]); repeat split.
Qed.

(** The quiz request of the sample popup ends in a 503, and its topics
    request cannot reach the backend: instances. *)
Lemma failed_action_keeps_state_witness :
  (exists st',
      step Url.parse Sample.asked (FetchSettles 0 (HttpError 503)) = Some st'
      /\ errorMessage (notes (document st'))
         = {| banner_text :=
                js "Failed to connect to backend: HTTP error! status: 503";
              banner_display := DisplayBlock |}
      /\ this st' = this Sample.asked)
  /\ (exists st',
        step Url.parse Sample.listing
          (FetchSettles 0 (NetworkError (js "Failed to fetch"))) = Some st'
        /\ errorMessage (notes (document st'))
           = {| banner_text :=
                  js "Failed to connect to backend: Failed to fetch";
                banner_display := DisplayBlock |}
        /\ panels (document st') = panels (document Sample.listing)).
Proof.
  split.
  - destruct (failed_action_keeps_state Url.parse Sample.asked 0
                Sample.quiz_request (HttpError 503)
                (js "Failed to connect to backend: HTTP error! status: 503"))
      as (st' & Hstep & Hbanner & _ & Hthis & _).
    + vm_compute; reflexivity.
    + reflexivity.
    + vm_compute; reflexivity.
    + exact (ex_intro _ st' (conj Hstep (conj Hbanner Hthis))).
  - destruct (failed_action_keeps_state Url.parse Sample.listing 0
                Sample.topics_request
                (NetworkError (js "Failed to fetch"))
                (js "Failed to connect to backend: Failed to fetch"))
      as (st' & Hstep & Hbanner & _ & _ & _ & Hpanels & _).
    + vm_compute; reflexivity.
    + reflexivity.
    + vm_compute; reflexivity.
    + exact (ex_intro _ st' (conj Hstep (conj Hbanner Hpanels))).
Defined.

(** Without a video, each of the four actions only reports it: the error
    banner shows "No video detected", no request is issued, and the
    controller, the panels, the quiz, the chat and the loading indicator
    are untouched. *)
Theorem no_video_no_action newURL (st st' : State) (e : event) :
  currentVideo (this st) = None ->
  needs_video e = true ->
  step newURL st e = Some st' ->
  st' = showError (js "No video detected") st
  /\ inflight (env st') = inflight (env st)
  /\ this st' = this st
  /\ panels (document st') = panels (document st)
  /\ quiz (document st') = quiz (document st)
  /\ chat (document st') = chat (document st)
  /\ loadingUi (document st') = loadingUi (document st).
Proof.
  intros Hvideo He Hstep.
  assert (H : st' = showError (js "No video detected") st).
  { destruct e; try discriminate; simpl in Hstep; injection Hstep as <-;
      unfold generateQuiz, generateSummary, extractTopics, startChat;
      rewrite Hvideo; reflexivity. }
  rewrite H. repeat split.
Qed.

(** A click on start-chat in the popup before the tab is known: an
    instance. *)
Lemma no_video_no_action_witness :
  startChat (constructor Sample.page 0)
  = showError (js "No video detected") (constructor Sample.page 0).
Proof.
  apply (no_video_no_action Url.parse (constructor Sample.page 0)
           (startChat (constructor Sample.page 0)) ClickStartChat);
    reflexivity.
Defined.

End ActionFacts.

(** ** Exit paths of the chat *)

Module ChatExitFacts.
Import Popup ChatFacts.





(** A send without a video: the user message is appended all the same,
    the bot message holds the apology for the error of reading the
    missing video, no request is issued, the input is emptied and input
    and button end enabled. *)
Theorem send_without_video (st : State) (message : list N) :
  currentVideo (this st) = None ->
  trim (chatInput_value (chat (document st))) = message ->
  message <> [] ->
  inflight (env (sendChatMessage st)) = inflight (env st)
  /\ (exists detail,
        drop (next_ordinal st) (transcript (sendChatMessage st))
        = [(next_ordinal st, user_node message);
           (S (next_ordinal st), bot_node (sorry ++ detail))])
  /\ chatInput_value (chat (document (sendChatMessage st))) = []
  /\ chatInput_disabled (chat (document (sendChatMessage st))) = false
  /\ sendChatBtn_disabled (chat (document (sendChatMessage st))) = false
  /\ notes (document (sendChatMessage st)) = notes (document st).
Proof.
  intros Hvideo Htrim Hmessage.
  assert (Hne := bot_key_fresh st message).
  assert (Hsend : sendChatMessage st
                  = enable_chat_input
                      (set_text (bot_key st message)
                         (sorry ++ type_error "null" "videoId")
                         (on_chat (fun _ =>
                            {| chatMessages :=
                                 (chatMessages (chat (document st))
                                  ++ [user_key st])
                                 ++ [bot_key st message];
                               nodes :=
                                 <[bot_key st message := bot_node []]>
                                   (<[user_key st := user_node message]>
                                      (nodes (chat (document st))));
                               chatInput_value := [];
                               chatInput_disabled := true;
                               sendChatBtn_disabled := true |}) st))).
  { unfold sendChatMessage. rewrite Htrim.
    destruct message as [|c message]; [congruence|].
    cbn [truthy negb]. unfold append_message. cbn.
    rewrite Hvideo. reflexivity. }
  rewrite Hsend. split; [reflexivity|]. split; [|repeat split].
  exists (type_error "null" "videoId"). unfold next_ordinal.
  rewrite (transcript_tail _ _ (user_key st) (bot_key st message))
    by reflexivity.
  cbn.
  rewrite lookup_alter_ne, lookup_alter_eq by exact Hne.
  rewrite lookup_insert_ne, !lookup_insert_eq by exact Hne.
  reflexivity.
Qed.

(** A question sent before the tab is known: an instance. *)
Lemma send_without_video_witness :
  inflight (env (sendChatMessage Sample.early)) = inflight (env Sample.early)
  /\ chatInput_disabled (chat (document (sendChatMessage Sample.early))) = false.
Proof.
  destruct (send_without_video Sample.early (js "why?"))
    as (Hreq & _ & _ & Hi & _).
  - reflexivity.
  - vm_compute; reflexivity.
  - discriminate.
  - exact (conj Hreq Hi).
Defined.

End ChatExitFacts.

(** ** The quiz through the event loop *)

Module QuizViewFacts.
Import Popup.

Lemma sendChatMessage_quiz_same st :
  this (sendChatMessage st) = this st
  /\ quiz (document (sendChatMessage st)) = quiz (document st).
Proof.
  unfold sendChatMessage.
  destruct (negb _); [split; reflexivity|].
  destruct (append_message _ _) as [key c].
  destruct (currentVideo _); split; reflexivity.
Qed.

Local Ltac same := solve [ apply quiz_same; reflexivity ].

(** What each event can do to the quiz. *)
Lemma step_quiz_change newURL st e st' :
  step newURL st e = Some st' -> quiz_change st st'.
Proof.
  destruct e; simpl; intros Hstep.
  - injection Hstep as <-. same.
  - destruct (timers (env st) !! i) as [t|]; [|discriminate].
    destruct (due t <=? now (env st)); [|discriminate].
    injection Hstep as <-. destruct (hides t); same.
  - destruct (tabsQueryPending (env st)); [|discriminate].
    injection Hstep as <-. unfold loadVideoInfo.
    destruct o as [message|[tab|]]; try same.
    destruct (negb _); [same|].
    destruct (Video.extractVideoInfo _ _ _); same.
  - injection Hstep as <-. same.
  - injection Hstep as <-. unfold generateQuiz.
    destruct (currentVideo (this st)); same.
  - injection Hstep as <-. unfold generateSummary.
    destruct (currentVideo (this st)); same.
  - injection Hstep as <-. unfold extractTopics.
    destruct (currentVideo (this st)); same.
  - injection Hstep as <-. unfold startChat.
    destruct (currentVideo (this st)); same.
  - injection Hstep as <-. unfold submitQuiz.
    destruct (_ || _); [same|].
    destruct (currentVideo (this (showLoading true st))) as [video|];
      [destruct (quizData (this (showLoading true st))) as [data|]|];
      same.
  - destruct (option_clickable index optionIndex st) eqn:Hclick;
      [|discriminate].
    injection Hstep as <-.
    apply (quiz_clicked _ _ index optionIndex); auto.
  - destruct (chatInput_disabled _); [discriminate|].
    injection Hstep as <-. same.
  - destruct (sendChatBtn_disabled _); [discriminate|].
    injection Hstep as <-. destruct (sendChatMessage_quiz_same st) as [Ht Hq].
    apply quiz_same; congruence.
  - destruct (chatInput_disabled _); [discriminate|].
    injection Hstep as <-. destruct (sendChatMessage_quiz_same st) as [Ht Hq].
    apply quiz_same; congruence.
  - destruct (inflight (env st) !! i) as [request|]; [|discriminate].
    destruct (and_then request); simpl in Hstep.
    + unfold after_generateQuiz in Hstep.
      destruct (makeApiCall_result o) as [[data| | | |]|message];
        try discriminate; injection Hstep as <-; [|same].
      apply (quiz_shown _ _ data); reflexivity.
    + unfold after_verify in Hstep.
      destruct (makeApiCall_result o) as [response|message];
        [|injection Hstep as <-; same].
      unfold displayQuizResults in Hstep. cbn in Hstep.
      destruct (mark_questions (quizData (this st)) (userAnswers (this st)) 0
                  (quizContent (quiz (document st))))
        as [els thrown] eqn:Hmark.
      destruct thrown as [message|]; injection Hstep as <-.
      * apply (quiz_marked _ _ (Some message)); try reflexivity.
        rewrite Hmark. reflexivity.
      * apply (quiz_marked _ _ None); try reflexivity.
        rewrite Hmark. reflexivity.
    + unfold after_summary in Hstep.
      destruct (makeApiCall_result o) as [[]|message]; try discriminate;
        injection Hstep as <-; same.
    + unfold after_topics in Hstep.
      destruct (makeApiCall_result o) as [[]|message]; try discriminate;
        injection Hstep as <-; same.
    + unfold after_chat in Hstep.
      destruct (makeApiCall_result o) as [[]|message]; try discriminate;
        injection Hstep as <-; same.
Qed.

Lemma contains_remove_same c cl :
  classList_contains c (classList_remove c cl) = false.
Proof.
  unfold classList_remove, classList_contains.
  induction cl as [|x cl IH]; simpl; [reflexivity|].
  destruct (String.eqb_spec c x) as [<-|Hx]; simpl; [exact IH|].
  rewrite IH. apply orb_false_iff. split; [|reflexivity].
  apply String.eqb_neq. exact Hx.
Qed.

Lemma mark_option_marked c u j opt : marked_option opt (mark_option c u j opt).
Proof.
  unfold marked_option, mark_option.
  destruct (Z.of_nat j =? c)%Z; [|destruct (_ && _)]; simpl;
    (split; [reflexivity|]); intros k Hc Hi;
    try reflexivity;
    apply QuizFacts.contains_add_other; apply String.eqb_neq; assumption.
Qed.

Lemma marked_option_refl opt : marked_option opt opt.
Proof. split; reflexivity. Qed.

(** The loop of [displayQuizResults] keeps the question elements and
    their options in place, marked or not. *)
Lemma mark_questions_marked data answers : forall els index els' thrown,
  mark_questions data answers index els = (els', thrown) ->
  Forall2 marked_question els els'.
Proof.
  induction els as [|el els IH]; intros index els' thrown Hmark;
    simpl in Hmark.
  - injection Hmark as <- _. constructor.
  - assert (Hrefl : forall l : list QuestionEl, Forall2 marked_question l l).
    { intros l. apply Forall_Forall2_diag, Forall_forall. intros x _.
      apply Forall_Forall2_diag, Forall_forall. intros y _.
      apply marked_option_refl. }
    destruct data as [data|]; [|injection Hmark as <- _; apply Hrefl].
    destruct (questions data !! index) as [q|];
      [|injection Hmark as <- _; apply Hrefl].
    destruct (mark_questions (Some data) answers (S index) els)
      as [rest thrown'] eqn:Hrest.
    injection Hmark as <- _. constructor; [|eapply IH; exact Hrest].
    unfold marked_question. simpl.
    apply Forall2_same_length_lookup_2; [rewrite length_imap; reflexivity|].
    intros j opt opt' Hopt Hopt'. rewrite list_lookup_imap, Hopt in Hopt'.
    injection Hopt' as <-. apply mark_option_marked.
Qed.

(** *** The selection mirrors the answers *)

Lemma step_selection newURL st e st' :
  selection_mirrored st -> step newURL st e = Some st' ->
  selection_mirrored st'.
Proof.
  intros Hinv Hstep. apply step_quiz_change in Hstep.
  destruct Hstep as [Hd Ha Hq|data Hd Ha Hq _|i0 j0 Hclick Hd Ha Hq _
                     |thrown Hd Ha Hq _];
    unfold selection_mirrored in *.
  - rewrite Ha, Hq. exact Hinv.
  - rewrite Ha, Hq. intros i el j opt Hel Hopt.
    rewrite list_lookup_imap in Hel.
    apply fmap_Some in Hel as (q & Hq' & ->). simpl in Hopt.
    rewrite list_lookup_imap in Hopt.
    apply fmap_Some in Hopt as (o & Ho & ->). simpl.
    rewrite lookup_empty. split; discriminate.
  - rewrite Ha, Hq. intros i el j opt Hel Hopt.
    destruct (decide (i0 = i)) as [<-|Hi].
    + rewrite list_lookup_alter_eq in Hel.
      apply fmap_Some in Hel as (el0 & Hel0 & ->).
      unfold select_in in Hopt. simpl in Hopt.
      rewrite lookup_insert_eq.
      destruct (decide (j0 = j)) as [<-|Hj].
      * rewrite list_lookup_alter_eq, list_lookup_fmap in Hopt.
        apply fmap_Some in Hopt as (opt1 & Hopt & ->). simpl.
        rewrite QuizFacts.contains_add_same. split; reflexivity.
      * rewrite list_lookup_alter_ne, list_lookup_fmap in Hopt by exact Hj.
        apply fmap_Some in Hopt as (opt0 & Hopt & ->). simpl.
        rewrite contains_remove_same. split; [discriminate|congruence].
    + rewrite list_lookup_alter_ne in Hel by exact Hi.
      rewrite lookup_insert_ne by exact Hi. eauto.
  - rewrite Ha. intros i el' j opt' Hel' Hopt'.
    symmetry in Hq. apply mark_questions_marked in Hq.
    destruct (Forall2_lookup_r _ _ _ _ _ Hq Hel') as (el & Hel & Hmarked).
    destruct (Forall2_lookup_r _ _ _ _ _ Hmarked Hopt')
      as (opt & Hopt & _ & Hclasses).
    rewrite Hclasses by discriminate. eauto.
Qed.

(** In every state the popup reaches from a document without question
    elements, as long as no topics answer has brought markup into the
    document (the topics container then holds plain text only), an
    option element of the quiz carries the class [selected] exactly when
    it is the answer recorded for its question: a question has at most
    one selected option, the last one clicked, and grading does not
    change it. *)
Theorem selection_follows_answers newURL (page : Dom) (t0 : N)
    (es : list event) (st : State) :
  quizContent (quiz page) = [] ->
  forallb plain_event es = true ->
  run newURL (constructor page t0) es = Some st ->
  selection_mirrored st /\ topics_plain page (document st).
Proof.
  intros Hpage Hplain Hrun.
  split;
    [|eapply TopicsFacts.run_topics_plain; [|exact Hplain|exact Hrun];
      left; reflexivity].
  clear Hplain. revert Hrun.
  assert (Hinit : selection_mirrored (constructor page t0)).
  { intros i el j opt Hel. simpl in Hel. rewrite Hpage in Hel. discriminate. }
  revert Hinit. generalize (constructor page t0). clear Hpage.
  induction es as [|e es IH]; simpl; intros s Hinv Hrun.
  - injection Hrun as <-. exact Hinv.
  - destruct (step newURL s e) as [s1|] eqn:Hstep; [|discriminate].
    apply (IH s1); [|exact Hrun]. eapply step_selection; eauto.
Qed.

(** The sample quiz with its two answers, picked after the topics of the
    video were listed: an instance. *)
Lemma selection_follows_answers_witness :
  selection_mirrored Sample.submitted_later
  /\ topics_plain Sample.page (document Sample.submitted_later).
Proof.
  apply (selection_follows_answers Url.parse Sample.page 0
           Sample.listing_first); vm_compute; reflexivity.
Defined.

(** *** The answers are in range *)

Lemma option_at_marked (st st' : State) i j opt :
  Forall2 marked_question (quizContent (quiz (document st)))
    (quizContent (quiz (document st'))) ->
  option_at st i j = Some opt ->
  exists opt', option_at st' i j = Some opt'.
Proof.
  unfold option_at. intros Hall Hopt.
  destruct (quizContent (quiz (document st)) !! i) as [el|] eqn:Hel;
    [|discriminate].
  destruct (Forall2_lookup_l _ _ _ _ _ Hall Hel) as (el' & Hel' & Hmarked).
  destruct (Forall2_lookup_l _ _ _ _ _ Hmarked Hopt) as (opt' & Hopt' & _).
  rewrite Hel'. eauto.
Qed.

Lemma step_answers_on_page newURL st e st' :
  answers_on_page st -> step newURL st e = Some st' -> answers_on_page st'.
Proof.
  intros Hinv Hstep. apply step_quiz_change in Hstep.
  destruct Hstep as [Hd Ha Hq|data Hd Ha Hq _|i0 j0 Hclick Hd Ha Hq _
                     |thrown Hd Ha Hq _];
    unfold answers_on_page, option_at in *.
  - rewrite Ha, Hq. exact Hinv.
  - rewrite Ha. intros i j Hij. rewrite lookup_empty in Hij. discriminate.
  - rewrite Ha, Hq. intros i j Hij.
    destruct (decide (i0 = i)) as [<-|Hi].
    + rewrite lookup_insert_eq in Hij. injection Hij as <-.
      unfold option_clickable in Hclick.
      rewrite list_lookup_alter_eq.
      destruct (quizContent (quiz (document st)) !! i0) as [el|];
        [|discriminate].
      simpl. rewrite list_lookup_alter_eq, list_lookup_fmap.
      destruct (question_options el !! j0) as [opt|]; [|discriminate].
      simpl. eauto.
    + rewrite lookup_insert_ne in Hij by exact Hi.
      rewrite list_lookup_alter_ne by exact Hi. eauto.
  - rewrite Ha. intros i j Hij. destruct (Hinv _ _ Hij) as (opt & Hopt).
    symmetry in Hq. apply mark_questions_marked in Hq.
    exact (option_at_marked st st' i j opt Hq Hopt).
Qed.

Lemma run_answers_on_page newURL es : forall st st',
  answers_on_page st -> run newURL st es = Some st' -> answers_on_page st'.
Proof.
  induction es as [|e es IH]; simpl; intros st st' Hinv Hrun.
  - injection Hrun as <-. exact Hinv.
  - destruct (step newURL st e) as [s1|] eqn:Hstep; [|discriminate].
    apply (IH s1); [|exact Hrun]. eapply step_answers_on_page; eauto.
Qed.

(** In a popup opened on a document without question elements, every
    answer the controller holds is for a question of its current quiz
    and names one of the options of that question, in every state the
    popup reaches. *)
Theorem answers_in_range newURL (page : Dom) (t0 : N) (es : list event)
    (st : State) (i j : nat) :
  quizContent (quiz page) = [] ->
  run newURL (constructor page t0) es = Some st ->
  userAnswers (this st) !! i = Some j ->
  exists data q o,
    quizData (this st) = Some data
    /\ questions data !! i = Some q
    /\ options q !! j = Some o.
Proof.
  intros Hpage Hrun Hij.
  assert (Hon : answers_on_page st).
  { eapply run_answers_on_page; [|exact Hrun].
    intros i' j' H. simpl in H. rewrite lookup_empty in H. discriminate. }
  assert (Hcons : quiz_consistent st).
  { eapply QuizFacts.run_quiz_consistent; [|exact Hrun]. exact Hpage. }
  destruct (Hon _ _ Hij) as (opt & Hopt). unfold option_at in Hopt.
  destruct (quizContent (quiz (document st)) !! i) as [el|] eqn:Hel;
    [|discriminate].
  unfold quiz_consistent in Hcons.
  destruct (quizData (this st)) as [data|];
    [|rewrite Hcons in Hel; discriminate].
  exists data.
  assert (H : exists q, questions data !! i = Some q
                /\ options q !! j = Some (option_text opt)).
  { destruct Hcons as [[Hlen Hall]|[Hlen Hall]];
      (destruct (lookup_lt_is_Some_2 (questions data) i) as [q Hq];
       [rewrite <- Hlen; eapply lookup_lt_Some; eauto|]);
      exists q; (split; [exact Hq|]);
      destruct (Hall _ _ _ Hq Hel) as [_ Hopts];
      destruct (Hopts _ _ Hopt) as [_ Ho]; exact Ho. }
  destruct H as (q & Hq & Ho). eauto.
Qed.

(** The second answer of the sample quiz: an instance. *)
Lemma answers_in_range_witness :
  exists data q o,
    quizData (this Sample.submitted) = Some data
    /\ questions data !! 1%nat = Some q
    /\ options q !! 0%nat = Some o.
Proof.
  apply (answers_in_range Url.parse Sample.page 0 Sample.answering
           Sample.submitted 1 0);
    vm_compute; reflexivity.
Defined.

(** *** The submit button *)

(** Nothing shows the submit button again: once it is hidden, as the
    grading leaves it, it stays hidden whatever happens next, also when
    a new quiz is shown. *)
Theorem submit_button_stays_hidden newURL (es : list event) :
  forall st st' : State,
  submitQuizBtn (quiz (document st)) = DisplayNone ->
  run newURL st es = Some st' ->
  submitQuizBtn (quiz (document st')) = DisplayNone.
Proof.
  induction es as [|e es IH]; simpl; intros st st' Hhidden Hrun.
  - injection Hrun as <-. exact Hhidden.
  - destruct (step newURL st e) as [s1|] eqn:Hstep; [|discriminate].
    apply (IH s1); [|exact Hrun].
    apply step_quiz_change in Hstep.
    destruct Hstep as [_ _ Hq|data _ _ _ Hb|i0 j0 _ _ _ _ Hb
                       |thrown _ _ _ Hb].
    + rewrite Hq. exact Hhidden.
    + rewrite Hb. exact Hhidden.
    + rewrite Hb. exact Hhidden.
    + rewrite Hb. destruct thrown; [exact Hhidden|reflexivity].
Qed.

(** A second quiz shown after the first was graded: an instance. *)
Lemma submit_button_stays_hidden_witness :
  submitQuizBtn (quiz (document Sample.second_quiz)) = DisplayNone
  /\ quizContent (quiz (document Sample.second_quiz)) <> [].
Proof.
  split; [|discriminate].
  apply (submit_button_stays_hidden Url.parse Sample.again Sample.graded);
    vm_compute; reflexivity.
Defined.

End QuizViewFacts.

(** ** The panels through the event loop *)

Module PanelViewFacts.
Import Popup.



End PanelViewFacts.

(** ** The video behind every request *)

Module VideoViewFacts.
Import Popup.

Lemma In_delete {A} (l : list A) : forall i x, In x (delete i l) -> In x l.
Proof.
  induction l as [|y l IH]; intros [|i] x Hx; simpl in *; auto.
  destruct Hx as [->|Hx]; eauto.
Qed.

(** A state whose controller and queue are those of a state that knows
    its video knows it too. *)
Lemma video_known_frame (st st' : State) :
  currentVideo (this st') = currentVideo (this st) ->
  quizData (this st') = quizData (this st) ->
  inflight (env st') = inflight (env st) ->
  tabsQueryPending (env st') = tabsQueryPending (env st) ->
  video_known st -> video_known st'.
Proof. unfold video_known. intros -> -> -> ->. auto. Qed.

(** One more request, about the video of the controller. *)
Lemma video_known_push (st : State) video endpoint data k :
  currentVideo (this st) = Some video ->
  body_video data = (Video.videoId video, Video.videoUrl video) ->
  video_known st ->
  video_known (makeApiCall endpoint data k st).
Proof.
  intros Hvideo Hbody (Hpending & Hreqs & Hquiz). repeat split; auto.
  intros request Hin. cbn in Hin. apply in_app_or in Hin as [Hin|[<-|[]]].
  - exact (Hreqs _ Hin).
  - exists video. auto.
Qed.

Lemma sendChatMessage_video_known st :
  video_known st -> video_known (sendChatMessage st).
Proof.
  intros Hinv. unfold sendChatMessage.
  destruct (negb _); [exact Hinv|].
  unfold append_message. cbn.
  destruct (currentVideo (this st)) as [video|] eqn:Hvideo.
  - eapply video_known_push; [exact Hvideo|reflexivity|].
    eapply video_known_frame; [| | | |exact Hinv]; reflexivity.
  - eapply video_known_frame; [| | | |exact Hinv]; reflexivity.
Qed.

Local Ltac known Hinv :=
  solve [ eapply video_known_frame; [| | | |exact Hinv]; reflexivity ].

Local Ltac pushed Hinv Hvideo :=
  solve [ eapply video_known_push;
          [exact Hvideo|reflexivity
          |eapply video_known_frame; [| | | |exact Hinv]; reflexivity] ].

Lemma step_video_known newURL st e st' :
  video_known st -> step newURL st e = Some st' -> video_known st'.
Proof.
  intros Hinv. destruct e; simpl; intros Hstep.
  - injection Hstep as <-. known Hinv.
  - destruct (timers (env st) !! i) as [t|]; [|discriminate].
    destruct (due t <=? now (env st)); [|discriminate].
    injection Hstep as <-. destruct (hides t); known Hinv.
  - destruct (tabsQueryPending (env st)) eqn:Hp; [|discriminate].
    injection Hstep as <-. destruct Hinv as (Hpending & Hreqs & Hquiz).
    specialize (Hpending Hp).
    assert (Hnone : forall request, ~ In request (inflight (env st))).
    { intros request Hin. destruct (Hreqs _ Hin) as (v & Hv & _). congruence. }
    assert (Hnoquiz : quizData (this st) = None).
    { destruct (quizData (this st)) eqn:Hq; [|reflexivity].
      exfalso. apply Hquiz; congruence. }
    unfold loadVideoInfo.
    assert (Hframe : forall s : State,
               quizData (this s) = None ->
               inflight (env s) = inflight (env st) ->
               tabsQueryPending (env s) = false ->
               video_known s).
    { intros s Hq Hi Ht. repeat split.
      - congruence.
      - intros request Hin. rewrite Hi in Hin. destruct (Hnone _ Hin).
      - congruence. }
    destruct o as [message|[tab|]]; try solve [apply Hframe; auto].
    destruct (negb _); [apply Hframe; auto|].
    destruct (Video.extractVideoInfo _ _ _); apply Hframe; auto.
  - injection Hstep as <-. known Hinv.
  - injection Hstep as <-. unfold generateQuiz.
    destruct (currentVideo (this st)) eqn:Hvideo;
      [pushed Hinv Hvideo|known Hinv].
  - injection Hstep as <-. unfold generateSummary.
    destruct (currentVideo (this st)) eqn:Hvideo;
      [pushed Hinv Hvideo|known Hinv].
  - injection Hstep as <-. unfold extractTopics.
    destruct (currentVideo (this st)) eqn:Hvideo;
      [pushed Hinv Hvideo|known Hinv].
  - injection Hstep as <-. unfold startChat.
    destruct (currentVideo (this st)); known Hinv.
  - injection Hstep as <-. unfold submitQuiz.
    destruct (_ || _); [known Hinv|].
    change (this (showLoading true st)) with (this st).
    destruct (currentVideo (this st)) as [video|] eqn:Hvideo;
      [destruct (quizData (this st)) as [data|]|];
      [pushed Hinv Hvideo|known Hinv|known Hinv].
  - destruct (option_clickable _ _ _); [|discriminate].
    injection Hstep as <-. known Hinv.
  - destruct (chatInput_disabled _); [discriminate|].
    injection Hstep as <-. known Hinv.
  - destruct (sendChatBtn_disabled _); [discriminate|].
    injection Hstep as <-. apply sendChatMessage_video_known. exact Hinv.
  - destruct (chatInput_disabled _); [discriminate|].
    injection Hstep as <-. apply sendChatMessage_video_known. exact Hinv.
  - destruct (inflight (env st) !! i) as [request|] eqn:Hreq; [|discriminate].
    assert (Hin : In request (inflight (env st))).
    { apply list_elem_of_In. eapply list_elem_of_lookup_2. exact Hreq. }
    destruct Hinv as (Hpending & Hreqs & Hquiz).
    destruct (Hreqs _ Hin) as (video & Hvideo & _).
    assert (Hframe : forall s : State,
               currentVideo (this s) = currentVideo (this st) ->
               inflight (env s) = delete i (inflight (env st)) ->
               tabsQueryPending (env s) = tabsQueryPending (env st) ->
               video_known s).
    { intros s Hv Hi Ht. repeat split.
      - rewrite Ht, Hv. exact Hpending.
      - intros r Hr. rewrite Hi in Hr. apply In_delete in Hr.
        rewrite Hv. exact (Hreqs _ Hr).
      - intros _. rewrite Hv, Hvideo. discriminate. }
    destruct (and_then request); simpl in Hstep.
    + unfold after_generateQuiz in Hstep.
      destruct (makeApiCall_result o) as [[]|message]; try discriminate;
        injection Hstep as <-; apply Hframe; reflexivity.
    + unfold after_verify in Hstep.
      destruct (makeApiCall_result o) as [response|message];
        [|injection Hstep as <-; apply Hframe; reflexivity].
      unfold displayQuizResults in Hstep.
      destruct (mark_questions _ _ _ _) as [els [message|]];
        injection Hstep as <-; apply Hframe; reflexivity.
    + unfold after_summary in Hstep.
      destruct (makeApiCall_result o) as [[]|message]; try discriminate;
        injection Hstep as <-; apply Hframe; reflexivity.
    + unfold after_topics in Hstep.
      destruct (makeApiCall_result o) as [[]|message]; try discriminate;
        injection Hstep as <-; apply Hframe; reflexivity.
    + unfold after_chat in Hstep.
      destruct (makeApiCall_result o) as [[]|message]; try discriminate;
        injection Hstep as <-; apply Hframe; reflexivity.
Qed.

Lemma run_video_known newURL es : forall st st',
  video_known st -> run newURL st es = Some st' -> video_known st'.
Proof.
  induction es as [|e es IH]; simpl; intros st st' Hinv Hrun.
  - injection Hrun as <-. exact Hinv.
  - destruct (step newURL st e) as [s1|] eqn:Hstep; [|discriminate].
    apply (IH s1); [|exact Hrun]. eapply step_video_known; eauto.
Qed.

Lemma constructor_video_known page t0 : video_known (constructor page t0).
Proof.
  repeat split; simpl; try congruence. intros request [].
Qed.

(** In every state the popup reaches, each request in flight is about
    the video the controller holds: no request leaves before the video
    of the tab is resolved, and none is about another video. *)
Theorem requests_about_the_video newURL (page : Dom) (t0 : N)
    (es : list event) (st : State) (request : Request) :
  run newURL (constructor page t0) es = Some st ->
  In request (inflight (env st)) ->
  exists video,
    currentVideo (this st) = Some video
    /\ body_video (request_body request)
       = (Video.videoId video, Video.videoUrl video).
Proof.
  intros Hrun Hin.
  destruct (run_video_known _ _ _ _ (constructor_video_known page t0) Hrun)
    as (_ & Hreqs & _).
  exact (Hreqs _ Hin).
Qed.

(** The verify request of the sample popup: an instance. *)
Lemma requests_about_the_video_witness :
  exists video,
    currentVideo (this Sample.submitted) = Some video
    /\ body_video (request_body Sample.verify_request)
       = (Video.videoId video, Video.videoUrl video).
Proof.
  apply (requests_about_the_video Url.parse Sample.page 0 Sample.answering).
  - vm_compute; reflexivity.
  - left. vm_compute; reflexivity.
Defined.

(** In every state the popup reaches, a submit with a quiz and at least
    one answer shows the loading indicator and issues one request to
    the verify endpoint, with the video of the controller, the answers
    as they are and the quiz as it was received; the error path of a
    missing video is never taken. *)
Theorem submit_sends_answers newURL (page : Dom) (t0 : N) (es : list event)
    (st : State) (data : QuizData) :
  run newURL (constructor page t0) es = Some st ->
  quizData (this st) = Some data ->
  userAnswers (this st) <> ∅ ->
  exists video,
    currentVideo (this st) = Some video
    /\ submitQuiz st
       = makeApiCall "/verify-answers"
           (VerifyBody (Video.videoId video) (Video.videoUrl video)
              (userAnswers (this st)) data)
           AfterVerify (showLoading true st).
Proof.
  intros Hrun Hdata Hanswers.
  destruct (run_video_known _ _ _ _ (constructor_video_known page t0) Hrun)
    as (_ & _ & Hquiz).
  destruct (currentVideo (this st)) as [video|] eqn:Hvideo;
    [|exfalso; apply Hquiz; congruence].
  exists video. split; [reflexivity|].
  unfold submitQuiz. rewrite Hdata.
  destruct (Nat.eqb_spec (size (userAnswers (this st))) 0) as [Hsize|_].
  - apply map_size_empty_inv in Hsize. contradiction.
  - cbn. rewrite Hvideo, Hdata. reflexivity.
Qed.

(** The sample quiz with its two answers, submitted: an instance. *)
Lemma submit_sends_answers_witness :
  exists video,
    currentVideo (this Sample.picked) = Some video
    /\ submitQuiz Sample.picked
       = makeApiCall "/verify-answers"
           (VerifyBody (Video.videoId video) (Video.videoUrl video)
              (userAnswers (this Sample.picked)) Sample.quiz_of_two)
           AfterVerify (showLoading true Sample.picked).
Proof.
  apply (submit_sends_answers Url.parse Sample.page 0 Sample.picking).
  - vm_compute; reflexivity.
  - vm_compute; reflexivity.
  - intros Hempty.
    assert (H : userAnswers (this Sample.picked) !! 0%nat = Some 2%nat)
      by (vm_compute; reflexivity).
    rewrite Hempty in H. discriminate.
Defined.

End VideoViewFacts.

(** ** Difficulty *)

Module DifficultyFacts.
Import Popup.

Lemma step_difficulty newURL st e st' :
  step newURL st e = Some st' ->
  selectedDifficulty (this st') = pick_difficulty (selectedDifficulty (this st)) e.
Proof.
  destruct e; simpl; intros Hstep.
  - injection Hstep as <-. reflexivity.
  - destruct (timers (env st) !! i) as [t|]; [|discriminate].
    destruct (due t <=? now (env st)); [|discriminate].
    injection Hstep as <-. destruct (hides t); reflexivity.
  - destruct (tabsQueryPending (env st)); [|discriminate].
    injection Hstep as <-. unfold loadVideoInfo.
    destruct o as [message|[tab|]]; try reflexivity.
    destruct (negb _); [reflexivity|].
    destruct (Video.extractVideoInfo _ _ _); reflexivity.
  - injection Hstep as <-. reflexivity.
  - injection Hstep as <-. unfold generateQuiz.
    destruct (currentVideo (this st)); reflexivity.
  - injection Hstep as <-. unfold generateSummary.
    destruct (currentVideo (this st)); reflexivity.
  - injection Hstep as <-. unfold extractTopics.
    destruct (currentVideo (this st)); reflexivity.
  - injection Hstep as <-. unfold startChat.
    destruct (currentVideo (this st)); reflexivity.
  - injection Hstep as <-. unfold submitQuiz.
    destruct (_ || _); [reflexivity|].
    destruct (currentVideo (this (showLoading true st))) as [video|];
      [destruct (quizData (this (showLoading true st))) as [data|]|];
      reflexivity.
  - destruct (option_clickable _ _ _); [|discriminate].
    injection Hstep as <-. reflexivity.
  - destruct (chatInput_disabled _); [discriminate|].
    injection Hstep as <-. reflexivity.
  - destruct (sendChatBtn_disabled _); [discriminate|].
    injection Hstep as <-.
    destruct (QuizViewFacts.sendChatMessage_quiz_same st) as [-> _].
    reflexivity.
  - destruct (chatInput_disabled _); [discriminate|].
    injection Hstep as <-.
    destruct (QuizViewFacts.sendChatMessage_quiz_same st) as [-> _].
    reflexivity.
  - destruct (inflight (env st) !! i) as [request|]; [|discriminate].
    destruct (and_then request); simpl in Hstep.
    + unfold after_generateQuiz in Hstep.
      destruct (makeApiCall_result o) as [[]|message]; try discriminate;
        injection Hstep as <-; reflexivity.
    + unfold after_verify in Hstep.
      destruct (makeApiCall_result o) as [response|message];
        [|injection Hstep as <-; reflexivity].
      unfold displayQuizResults in Hstep.
      destruct (mark_questions _ _ _ _) as [els [message|]];
        injection Hstep as <-; reflexivity.
    + unfold after_summary in Hstep.
      destruct (makeApiCall_result o) as [[]|message]; try discriminate;
        injection Hstep as <-; reflexivity.
    + unfold after_topics in Hstep.
      destruct (makeApiCall_result o) as [[]|message]; try discriminate;
        injection Hstep as <-; reflexivity.
    + unfold after_chat in Hstep.
      destruct (makeApiCall_result o) as [[]|message]; try discriminate;
        injection Hstep as <-; reflexivity.
Qed.

Lemma run_difficulty newURL es : forall st st',
  run newURL st es = Some st' ->
  selectedDifficulty (this st')
  = fold_left pick_difficulty es (selectedDifficulty (this st)).
Proof.
  induction es as [|e es IH]; simpl; intros st st' Hrun.
  - injection Hrun as <-. reflexivity.
  - destruct (step newURL st e) as [s1|] eqn:Hstep; [|discriminate].
    rewrite (IH _ _ Hrun), (step_difficulty _ _ _ _ Hstep). reflexivity.
Qed.

(** With a video, a click on generate-quiz shows the loading indicator
    and issues one request to the quiz endpoint that asks for five
    questions at the difficulty of the last difficulty button clicked
    since the popup opened, "easy" when none was. *)
Theorem quiz_request_difficulty newURL (page : Dom) (t0 : N) (es : list event)
    (st : State) (video : Video.VideoInfo) :
  run newURL (constructor page t0) es = Some st ->
  currentVideo (this st) = Some video ->
  generateQuiz st
  = makeApiCall "/generate-quiz"
      (GenerateQuizBody (Video.videoId video) (Video.videoUrl video)
         (chosen_difficulty es) 5)
      AfterGenerateQuiz (showLoading true st).
Proof.
  intros Hrun Hvideo. unfold generateQuiz. rewrite Hvideo.
  change (selectedDifficulty (this (showLoading true st)))
    with (selectedDifficulty (this st)).
  rewrite (run_difficulty _ _ _ _ Hrun). reflexivity.
Qed.

(** A hard quiz asked for after a click on medium: an instance. *)
Lemma quiz_request_difficulty_witness :
  generateQuiz Sample.chosen
  = makeApiCall "/generate-quiz"
      (GenerateQuizBody (js "dQw4w9WgXcQ") Sample.watch_page
         (chosen_difficulty Sample.choosing) 5)
      AfterGenerateQuiz (showLoading true Sample.chosen)
  /\ chosen_difficulty Sample.choosing = js "hard".
Proof.
  split; [|reflexivity].
  apply (quiz_request_difficulty Url.parse Sample.page 0 Sample.choosing
           Sample.chosen Sample.video);
    vm_compute; reflexivity.
Defined.

End DifficultyFacts.

(** ** Start-up *)

Module StartFacts.
Import Popup Video.

Lemma extractVideoInfo_fields newURL url t video :
  extractVideoInfo newURL url t = Some video ->
  title video = Title.cleanTitle t /\ videoUrl video = url.
Proof.
  unfold extractVideoInfo.
  destruct (newURL url) as [u|]; [|discriminate].
  destruct (Url.get (js "v") (Url.searchParams u)) as [id|]; [|discriminate].
  destruct (negb (truthy id)); [discriminate|].
  intros [= <-]. split; reflexivity.
Qed.

(** Once the active tab is known, the popup holds a video exactly when
    the URL of the tab is classified as a video page and
    [extractVideoInfo] finds a video id in it; the title and the URL it
    displays are then the cleaned title and the URL of the tab. On any
    other tab it holds no video, and the action buttons are disabled
    when the URL is not a video page. Either way one banner, and only
    one, is shown, and no request is issued. *)
Theorem loadVideoInfo_resolves newURL (tab : Tab) (st : State) :
  currentVideo (this st) = None ->
  currentVideo (this (loadVideoInfo newURL (TabsResolved (Some tab)) st))
  = (if isYouTubeVideoPage newURL (tab_url tab)
     then extractVideoInfo newURL (tab_url tab) (tab_title tab)
     else None)
  /\ (forall video,
        currentVideo (this (loadVideoInfo newURL (TabsResolved (Some tab)) st))
        = Some video ->
        videoTitle
          (info (document (loadVideoInfo newURL (TabsResolved (Some tab)) st)))
        = Title.cleanTitle (tab_title tab)
        /\ videoUrlText
             (info (document
                      (loadVideoInfo newURL (TabsResolved (Some tab)) st)))
           = tab_url tab
        /\ success_visible (loadVideoInfo newURL (TabsResolved (Some tab)) st)
           = true
        /\ error_visible (loadVideoInfo newURL (TabsResolved (Some tab)) st)
           = false)
  /\ (currentVideo (this (loadVideoInfo newURL (TabsResolved (Some tab)) st))
      = None ->
      error_visible (loadVideoInfo newURL (TabsResolved (Some tab)) st) = true
      /\ success_visible (loadVideoInfo newURL (TabsResolved (Some tab)) st)
         = false)
  /\ (isYouTubeVideoPage newURL (tab_url tab) = false ->
      actionBtns_disabled
        (info (document (loadVideoInfo newURL (TabsResolved (Some tab)) st)))
      = true)
  /\ inflight (env (loadVideoInfo newURL (TabsResolved (Some tab)) st))
     = inflight (env st).
Proof.
  intros Hnone. unfold loadVideoInfo.
  destruct (isYouTubeVideoPage newURL (tab_url tab)) eqn:Hvalid; cbn [negb].
  - destruct (extractVideoInfo newURL (tab_url tab) (tab_title tab))
      as [videoInfo|] eqn:Hextract.
    + destruct (extractVideoInfo_fields _ _ _ _ Hextract) as [Ht Hu].
      split; [reflexivity|]. split; [|split; [|split]].
      * intros video _. cbn. rewrite Ht, Hu. repeat split.
      * cbn. discriminate.
      * discriminate.
      * reflexivity.
    + split; [exact Hnone|]. split; [|split; [|split]].
      * intros video Hvideo. cbn in Hvideo. congruence.
      * intros _. split; reflexivity.
      * discriminate.
      * reflexivity.
  - split; [exact Hnone|]. split; [|split; [|split]].
    + intros video Hvideo. cbn in Hvideo. congruence.
    + intros _. split; reflexivity.
    + intros _. reflexivity.
    + reflexivity.
Qed.

(** The sample tab: an instance. *)
Lemma loadVideoInfo_resolves_witness :
  currentVideo
    (this (loadVideoInfo Url.parse (TabsResolved (Some Sample.tab))
             (constructor Sample.page 0)))
  = Some Sample.video.
Proof.
  destruct (loadVideoInfo_resolves Url.parse Sample.tab
              (constructor Sample.page 0) eq_refl) as (H & _).
  rewrite H. vm_compute. reflexivity.
Defined.

End StartFacts.

(** ** Restarting the chat, and the timers of the banners *)

Module QuirkFacts.
Import Popup.



(** Timers are never cancelled: when an error is shown [dt] ms after an
    earlier one, with [dt] at most 5000, the timer of the earlier one is
    still queued, is due 5000 ms after the earlier error, and hides the
    banner with the later message when it fires, [dt] ms before the
    timer of the later message is due. *)
Theorem earlier_timer_hides_later_message newURL (st : State)
    (first later : list N) (dt : N) :
  dt <= 5000 ->
  exists s s',
    run newURL (showError first st) [Tick dt] = Some s
    /\ run newURL (showError later s)
         [Tick (5000 - dt); TimerFires (length (timers (env st)))]
       = Some s'
    /\ banner_text (errorMessage (notes (document s'))) = later
    /\ error_visible s' = false
    /\ now (env s') = now (env st) + 5000
    /\ timers (env s')
       = timers (env st)
         ++ [{| due := now (env st) + dt + 5000; hides := ErrorBanner |}].
Proof.
  intros Hdt. eexists. eexists. split; [reflexivity|].
  cbn -[N.add N.sub N.leb].
  rewrite <- !app_assoc. cbn [app].
  rewrite list_lookup_middle by reflexivity.
  cbn -[N.add N.sub N.leb].
  assert (Hdue : (now (env st) + 5000 <=? now (env st) + dt + (5000 - dt))
                 = true) by (apply N.leb_le; lia).
  rewrite Hdue. split; [reflexivity|].
  cbn -[N.add N.sub N.leb].
  repeat split.
  - lia.
  - rewrite <- !app_assoc. cbn [app]. apply delete_middle.
Qed.

(** Two errors two seconds apart in the sample popup: an instance. *)
Lemma earlier_timer_hides_later_message_witness :
  exists s s',
    run Url.parse (showError (js "first") Sample.watching) [Tick 2000] = Some s
    /\ run Url.parse (showError (js "later") s)
         [Tick (5000 - 2000);
          TimerFires (length (timers (env Sample.watching)))]
       = Some s'
    /\ banner_text (errorMessage (notes (document s'))) = js "later"
    /\ error_visible s' = false
    /\ now (env s') = now (env Sample.watching) + 5000
    /\ timers (env s')
       = timers (env Sample.watching)
         ++ [{| due := now (env Sample.watching) + 2000 + 5000;
                hides := ErrorBanner |}].
Proof.
  apply (earlier_timer_hides_later_message Url.parse Sample.watching
           (js "first") (js "later") 2000).
  vm_compute. discriminate.
Defined.

End QuirkFacts.

(** ** The transcript through the event loop *)

Module TranscriptFacts.
Import Popup ChatFacts.

Lemma sendChatMessage_change (st : State) :
  chat_change (chat (document st)) (chat (document (sendChatMessage st))).
Proof.
  unfold sendChatMessage.
  destruct (negb _); [apply chat_kept; reflexivity|].
  unfold append_message. cbn.
  set (message := trim (chatInput_value (chat (document st)))).
  set (c := chat (document st)).
  set (k1 := fresh (dom (nodes c))).
  set (user := {| className := "chat-message chat-user";
                  textContent := message |}).
  set (k2 := fresh (dom (<[k1 := user]> (nodes c)))).
  assert (Hk1 : k1 ∉ dom (nodes c)) by apply is_fresh.
  assert (Hk2 : k2 ∉ dom (<[k1 := user]> (nodes c))) by apply is_fresh.
  rewrite dom_insert_L in Hk2.
  assert (Hne : k2 <> k1) by set_solver.
  assert (Hk2' : k2 ∉ dom (nodes c)) by set_solver.
  destruct (currentVideo (this st)) as [video|]; cbn.
  - apply (chat_appended _ _ k1 k2); cbn; auto.
    + rewrite <- app_assoc. reflexivity.
    + unfold class_of. cbn.
      rewrite lookup_insert_ne, lookup_insert_eq by exact Hne. reflexivity.
    + unfold class_of. cbn. rewrite lookup_insert_eq. reflexivity.
    + intros key Hkey. unfold class_of. cbn.
      rewrite !lookup_insert_ne by set_solver. reflexivity.
  - apply (chat_appended _ _ k1 k2); cbn; auto.
    + rewrite <- app_assoc. reflexivity.
    + unfold class_of. cbn.
      rewrite lookup_alter_ne, lookup_insert_ne, lookup_insert_eq
        by exact Hne.
      reflexivity.
    + unfold class_of. cbn.
      rewrite lookup_alter_eq, lookup_insert_eq. reflexivity.
    + intros key Hkey. unfold class_of. cbn.
      rewrite lookup_alter_ne, !lookup_insert_ne by set_solver. reflexivity.
Qed.

Local Ltac kept := solve [ apply chat_kept; reflexivity ].

(** What each event can do to the messages. *)
Lemma step_chat_change newURL st e st' :
  step newURL st e = Some st' ->
  chat_change (chat (document st)) (chat (document st')).
Proof.
  destruct e; simpl; intros Hstep.
  - injection Hstep as <-. kept.
  - destruct (timers (env st) !! i) as [t|]; [|discriminate].
    destruct (due t <=? now (env st)); [|discriminate].
    injection Hstep as <-. destruct (hides t); kept.
  - destruct (tabsQueryPending (env st)); [|discriminate].
    injection Hstep as <-. unfold loadVideoInfo.
    destruct o as [message|[tab|]]; try kept.
    destruct (negb _); [kept|].
    destruct (Video.extractVideoInfo _ _ _); kept.
  - injection Hstep as <-. kept.
  - injection Hstep as <-. unfold generateQuiz.
    destruct (currentVideo (this st)); kept.
  - injection Hstep as <-. unfold generateSummary.
    destruct (currentVideo (this st)); kept.
  - injection Hstep as <-. unfold extractTopics.
    destruct (currentVideo (this st)); kept.
  - injection Hstep as <-. unfold startChat.
    destruct (currentVideo (this st)); [|kept].
    apply chat_cleared; reflexivity.
  - injection Hstep as <-. unfold submitQuiz.
    destruct (_ || _); [kept|].
    destruct (currentVideo (this (showLoading true st))) as [video|];
      [destruct (quizData (this (showLoading true st))) as [data|]|];
      kept.
  - destruct (option_clickable _ _ _); [|discriminate].
    injection Hstep as <-. kept.
  - destruct (chatInput_disabled _); [discriminate|].
    injection Hstep as <-. kept.
  - destruct (sendChatBtn_disabled _); [discriminate|].
    injection Hstep as <-. apply sendChatMessage_change.
  - destruct (chatInput_disabled _); [discriminate|].
    injection Hstep as <-. apply sendChatMessage_change.
  - destruct (inflight (env st) !! i) as [request|]; [|discriminate].
    destruct (and_then request); simpl in Hstep.
    + unfold after_generateQuiz in Hstep.
      destruct (makeApiCall_result o) as [[]|message]; try discriminate;
        injection Hstep as <-; kept.
    + unfold after_verify in Hstep.
      destruct (makeApiCall_result o) as [response|message];
        [|injection Hstep as <-; kept].
      unfold displayQuizResults in Hstep.
      destruct (mark_questions _ _ _ _) as [els [message|]];
        injection Hstep as <-; kept.
    + unfold after_summary in Hstep.
      destruct (makeApiCall_result o) as [[]|message]; try discriminate;
        injection Hstep as <-; kept.
    + unfold after_topics in Hstep.
      destruct (makeApiCall_result o) as [[]|message]; try discriminate;
        injection Hstep as <-; kept.
    + unfold after_chat in Hstep.
      destruct (makeApiCall_result o) as [[]|message]; try discriminate;
        injection Hstep as <-;
        eapply chat_text; reflexivity.
Qed.

Lemma exchanges_snoc k :
  exchanges k ++ [user_class; bot_class] = exchanges (S k).
Proof.
  unfold exchanges. induction k as [|k IH]; [reflexivity|].
  change (replicate (S k) [user_class; bot_class])
    with ([user_class; bot_class] :: replicate k [user_class; bot_class]).
  cbn [concat]. rewrite <- app_assoc, IH. reflexivity.
Qed.

Lemma chat_change_paired c c' :
  chat_change c c' -> chat_paired c -> chat_paired c'.
Proof.
  intros [Hm Hn|Hm Hn|k1 k2 Hk1 Hk2 Hm Hc1 Hc2 Hold|key text Hm Hn] [k Hk].
  - exists k. rewrite Hm. unfold class_of. rewrite Hn. exact Hk.
  - exists 0%nat. rewrite Hm. reflexivity.
  - exists (S k). rewrite <- exchanges_snoc, Hm, !map_app. cbn [map].
    rewrite Hc1, Hc2. f_equal.
    rewrite <- Hk. apply map_ext_in. intros key Hin.
    apply Hold. apply elem_of_dom.
    assert (Hsome : In (class_of c key) (map Some (exchanges k))).
    { rewrite <- Hk. apply in_map. exact Hin. }
    apply in_map_iff in Hsome as (cls & Hcls & _).
    unfold class_of in Hcls.
    destruct (nodes c !! key); [eauto|discriminate].
  - exists k. rewrite Hm, <- Hk. apply map_ext. intros key'.
    unfold class_of. rewrite Hn.
    destruct (decide (key = key')) as [<-|Hne].
    + rewrite lookup_alter_eq. destruct (nodes c !! key); reflexivity.
    + rewrite lookup_alter_ne by exact Hne. reflexivity.
Qed.

Lemma run_chat_paired newURL es : forall st st',
  chat_paired (chat (document st)) -> run newURL st es = Some st' ->
  chat_paired (chat (document st')).
Proof.
  induction es as [|e es IH]; simpl; intros st st' Hinv Hrun.
  - injection Hrun as <-. exact Hinv.
  - destruct (step newURL st e) as [s1|] eqn:Hstep; [|discriminate].
    apply (IH s1); [|exact Hrun].
    exact (chat_change_paired _ _ (step_chat_change _ _ _ _ Hstep) Hinv).
Qed.

Lemma imap_classes (c : ChatDom) :
  forall (keys : list nat) (classes : list string) (n : nat),
  map (class_of c) keys = map Some classes ->
  map (fun m : nat * ChatNode => className (snd m))
    (imap (fun ordinal key =>
             ((n + ordinal)%nat,
              default {| className := ""; textContent := [] |}
                (nodes c !! key))) keys)
  = classes.
Proof.
  induction keys as [|key keys IH]; intros [|cls classes] n Hmap;
    try discriminate; [reflexivity|].
  simpl in Hmap. injection Hmap as Hkey Hmap.
  cbn [imap map]. f_equal.
  - unfold class_of in Hkey. cbn.
    destruct (nodes c !! key); [|discriminate].
    injection Hkey as <-. reflexivity.
  - rewrite <- (IH classes (S n) Hmap). f_equal.
    apply imap_ext. intros i x _. cbn. f_equal. lia.
Qed.

Lemma transcript_classes (st : State) (k : nat) :
  map (class_of (chat (document st))) (chatMessages (chat (document st)))
  = map Some (exchanges k) ->
  map (fun m => className (snd m)) (transcript st) = exchanges k.
Proof.
  intros Hmap. unfold transcript.
  exact (imap_classes _ _ _ 0%nat Hmap).
Qed.

(** In a popup opened on a document without chat messages, the
    transcript is at every moment a sequence of whole exchanges: a user
    message, then the bot message of its request, and so on; every
    message of the transcript has its node. *)
Theorem transcript_in_exchanges newURL (page : Dom) (t0 : N)
    (es : list event) (st : State) :
  chatMessages (chat page) = [] ->
  run newURL (constructor page t0) es = Some st ->
  exists k,
    map (fun m => className (snd m)) (transcript st) = exchanges k
    /\ length (transcript st) = (2 * k)%nat.
Proof.
  intros Hpage Hrun.
  assert (Hinit : chat_paired (chat (document (constructor page t0)))).
  { exists 0%nat. simpl. rewrite Hpage. reflexivity. }
  destruct (run_chat_paired _ _ _ _ Hinit Hrun) as [k Hk].
  exists k. split; [exact (transcript_classes st k Hk)|].
  unfold transcript. rewrite length_imap.
  apply (f_equal (@length _)) in Hk. rewrite !length_map in Hk.
  rewrite Hk. unfold exchanges. clear.
  induction k as [|k IH]; [reflexivity|].
  cbn [replicate concat]. rewrite length_app, IH. simpl. lia.
Qed.

(** The sample chat, answered behind a summary request: an instance. *)
Lemma transcript_in_exchanges_witness :
  exists k,
    map (fun m => className (snd m)) (transcript Sample.replied_later)
    = exchanges k
    /\ length (transcript Sample.replied_later) = (2 * k)%nat.
Proof.
  apply (transcript_in_exchanges Url.parse Sample.page 0
           (Sample.typing ++ [ClickSendChat] ++ Sample.meanwhile
            ++ [FetchSettles 0 (Ok (JChat (js "hello")))]));
    vm_compute; reflexivity.
Defined.

End TranscriptFacts.

(** ** Timestamps, read back *)

Module TimestampMoreFacts.
Import Timestamp TimestampFacts.

(** Below 2^53 the rendered timestamp loses nothing: it is a decimal
    numeral, a colon and two digits, and sixty times the numeral plus
    the two digits read as a number below sixty is the number of
    seconds; so two different numbers of seconds below 2^53 are never
    rendered alike. *)
Theorem formatTimestamp_reads_back (s : N) :
  s < 2 ^ 53 ->
  (exists minutes d1 d2,
      formatTimestamp s = minutes ++ [colon; d1; d2]
      /\ value_of_digits [d1; d2] < 60
      /\ 60 * value_of_digits minutes + value_of_digits [d1; d2] = s)
  /\ (forall s', s' < 2 ^ 53 ->
        formatTimestamp s' = formatTimestamp s -> s' = s).
Proof.
  intros Hs.
  assert (Hvalue : forall r, r < 60 ->
             value_of_digits [digit (r / 10); digit (r mod 10)] = r).
  { intros r Hr. unfold value_of_digits. cbn [fold_left].
    unfold horner, digit, zero_digit.
    pose proof (N.div_mod r 10 ltac:(discriminate)) as H.
    set (q := r / 10) in *. set (m := r mod 10) in *. clearbody q m. lia. }
  assert (Hmod : forall a, a mod 60 < 60)
    by (intros a; apply N.mod_lt; discriminate).
  split.
  - exists (toString (s / 60)), (digit ((s mod 60) / 10)),
           (digit ((s mod 60) mod 10)).
    split; [apply (formatTimestamp_safe s Hs)|].
    rewrite Hvalue, toString_value by apply Hmod.
    split; [apply Hmod|].
    pose proof (N.div_mod s 60 ltac:(discriminate)). lia.
  - intros s' Hs' Heq.
    rewrite (formatTimestamp_safe s Hs), (formatTimestamp_safe s' Hs') in Heq.
    change (?l ++ [colon] ++ [?a; ?b]) with (l ++ [colon; a; b]) in Heq.
    apply app_inj_2 in Heq as [Hminutes Hseconds]; [|reflexivity].
    apply (f_equal value_of_digits) in Hminutes.
    rewrite !toString_value in Hminutes.
    injection Hseconds as H1 H2.
    assert (Hr : s' mod 60 = s mod 60).
    { rewrite <- (Hvalue (s' mod 60)), <- (Hvalue (s mod 60)) by apply Hmod.
      rewrite H1, H2. reflexivity. }
    pose proof (N.div_mod s 60 ltac:(discriminate)).
    pose proof (N.div_mod s' 60 ltac:(discriminate)). lia.
Qed.

(** The rendering of 125 seconds, read back: an instance. *)
Lemma formatTimestamp_reads_back_witness :
  125 < 2 ^ 53
  /\ exists minutes d1 d2,
       formatTimestamp 125 = minutes ++ [colon; d1; d2]
       /\ value_of_digits [d1; d2] < 60
       /\ 60 * value_of_digits minutes + value_of_digits [d1; d2] = 125.
Proof.
  assert (H : 125 < 2 ^ 53) by (vm_compute; reflexivity).
  split; [exact H|].
  exact (proj1 (formatTimestamp_reads_back 125 H)).
Defined.

End TimestampMoreFacts.

(** ** The clean-up only cuts *)

Module TitleMoreFacts.
Import Title RegexFacts TitleFacts.

(** The clean-up never rewrites a title, it only cuts its end: the
    result is a prefix of the title, and what is cut is nothing or white
    space, a hyphen, white space and the word YouTube; after a cut the
    result does not end in white space. *)
Theorem cleanTitle_cuts (t : list N) :
  exists cut,
    t = cleanTitle t ++ cut
    /\ (cut = []
        \/ (ends_in_space (cleanTitle t) = false
            /\ exists w1 w2,
                 cut = w1 ++ [hyphen] ++ w2 ++ YouTube
                 /\ spaces w1 /\ spaces w2)).
Proof.
  unfold cleanTitle.
  destruct (replace_cases suffix_re [] t)
    as [[Hsame _]|(p & m & k & -> & Hm & Hrep & Hleft)].
  - exists []. rewrite Hsame, app_nil_r. auto.
  - destruct (suffix_re_sound _ _ Hm) as (-> & w1 & w2 & Hw1 & Hw2 & ->).
    rewrite Hrep. simpl. rewrite app_nil_r.
    exists (w1 ++ [hyphen] ++ w2 ++ YouTube). split; [reflexivity|].
    right. split; [|eauto].
    destruct p as [|c p _] using rev_ind; [reflexivity|].
    rewrite ends_in_space_snoc.
    destruct (is_space c) eqn:Hc; [|reflexivity].
    specialize (Hleft p [c] eq_refl ltac:(discriminate)).
    change ([c] ++ w1 ++ [hyphen] ++ w2 ++ YouTube)
      with ((c :: w1) ++ [hyphen] ++ w2 ++ YouTube) in Hleft.
    rewrite suffix_re_complete in Hleft; [discriminate| |exact Hw2].
    unfold spaces. simpl. rewrite Hc. exact Hw1.
Qed.

End TitleMoreFacts.

(** ** The content script *)

Module ContentFacts.
Import Content.

Lemma trimStart_head s : starts_with_space (trimStart s) = false.
Proof.
  induction s as [|c s IH]; simpl; [reflexivity|].
  destruct (is_space c) eqn:Hc; [exact IH|]. simpl. exact Hc.
Qed.

Lemma trimStart_snoc c : is_space c = false ->
  forall l, exists l', trimStart (l ++ [c]) = l' ++ [c].
Proof.
  intros Hc. induction l as [|x l IH]; simpl.
  - rewrite Hc. exists []. reflexivity.
  - destruct (is_space x); [exact IH|]. exists (x :: l). reflexivity.
Qed.

Lemma ends_in_space_rev l : ends_in_space (rev l) = starts_with_space l.
Proof.
  destruct l as [|c l]; [reflexivity|]. simpl.
  apply TitleFacts.ends_in_space_snoc.
Qed.

(** [trim] leaves no white space at either end. *)
Lemma trim_trimmed s :
  starts_with_space (trim s) = false /\ ends_in_space (trim s) = false.
Proof.
  unfold trim, trimEnd. split.
  - pose proof (trimStart_head s) as Hhead.
    destruct (trimStart s) as [|c y]; [reflexivity|].
    simpl in Hhead. simpl rev.
    destruct (trimStart_snoc c Hhead (rev y)) as (l' & ->).
    rewrite rev_app_distr. simpl. exact Hhead.
  - rewrite ends_in_space_rev. apply trimStart_head.
Qed.

(** The title the content script reports has no white space at either
    end, whatever the page holds. *)
Theorem reported_title_trimmed (page : Page) (info : PageInfo) :
  extractVideoInfoFromPage page = Info info ->
  starts_with_space (title info) = false
  /\ ends_in_space (title info) = false
  /\ videoUrl info = href page
  /\ timestamp info = clock page.
Proof.
  unfold extractVideoInfoFromPage.
  destruct (Url.get (js "v") (search page)) as [id|]; [|discriminate].
  destruct (negb (truthy id)); [discriminate|].
  destruct (find_title page titleSelectors (Some [])) as [t|]; [|discriminate].
  intros [= <-]. simpl.
  destruct (trim_trimmed (replace Title.suffix_re [] t)) as [Hs He].
  auto.
Qed.

(** The sample page: an instance. *)
Lemma reported_title_trimmed_witness :
  starts_with_space (title SamplePage.reported) = false
  /\ ends_in_space (title SamplePage.reported) = false
  /\ videoUrl SamplePage.reported = href SamplePage.page
  /\ timestamp SamplePage.reported = clock SamplePage.page.
Proof.
  apply (reported_title_trimmed SamplePage.page SamplePage.reported).
  vm_compute. reflexivity.
Defined.

(** The loop over the selectors takes the text of the first selector
    that has any, and prefers [textContent] to [content] to
    [innerText]. *)
Theorem first_selector_with_text (page : Page) (before after : list string)
    (selector : string) (element : Element) (text : list N)
    (initial : option (list N)) :
  Forall (no_text page) before ->
  querySelector page selector = Some element ->
  or_else (el_textContent element)
    (or_else (el_content element) (el_innerText element)) = Some text ->
  text <> [] ->
  find_title page (before ++ selector :: after) initial = Some text.
Proof.
  intros Hbefore Hsel Htext Hne. revert initial.
  induction Hbefore as [|s before Hs _ IH]; intros initial; simpl.
  - rewrite Hsel, Htext. destruct text; [congruence|reflexivity].
  - unfold no_text in Hs.
    destruct (querySelector page s) as [e|]; [|apply IH].
    rewrite Hs. apply IH.
Qed.

(** The [og:title] of the sample page, found after an empty heading: an
    instance. *)
Lemma first_selector_with_text_witness :
  find_title SamplePage.page titleSelectors (Some [])
  = Some (js "  Induction explained - YouTube ").
Proof.
  apply (first_selector_with_text SamplePage.page SamplePage.headings
           ["title"%string]
           (attribute_selector "meta" "property" "og:title")
           SamplePage.og_title).
  - repeat constructor.
  - reflexivity.
  - reflexivity.
  - discriminate.
Defined.

(** The content script strips before it trims: a text that ends in white
    space keeps its suffix and is only trimmed. *)
Theorem trailing_space_keeps_suffix (text : list N) (c : N) :
  is_space c = true ->
  Title.cleanTitle_content (text ++ [c]) = trim (text ++ [c]).
Proof.
  intros Hc. unfold Title.cleanTitle_content.
  change (replace Title.suffix_re [] (text ++ [c]))
    with (Title.cleanTitle (text ++ [c])).
  rewrite TitleFacts.cleanTitle_not_suffixed; [reflexivity|].
  intros p w1 w2 (Heq & _ & _).
  change Title.YouTube with (js "YouTub" ++ [101]) in Heq.
  rewrite !app_assoc in Heq. apply app_inj_tail in Heq as [_ ->].
  discriminate.
Qed.

(** The [og:title] of the sample page: an instance. *)
Lemma trailing_space_keeps_suffix_witness :
  Title.cleanTitle_content (js "  Induction explained - YouTube ")
  = js "Induction explained - YouTube".
Proof.
  change (js "  Induction explained - YouTube ")
    with (js "  Induction explained - YouTube" ++ [32]).
  rewrite (trailing_space_keeps_suffix (js "  Induction explained - YouTube") 32).
  - reflexivity.
  - reflexivity.
Defined.

Section WithParser.

Variable newURL : list N -> option Url.URL.

(** The popup and the content script agree on the video: on a page whose
    query is that of the URL the popup parses, the popup finds no video
    context exactly when the content script answers that no video id is
    in the URL, and when both find one they report the same video id. *)
Theorem content_agrees_with_popup (url ptitle : list N) (u : Url.URL)
    (page : Page) :
  newURL url = Some u ->
  Url.searchParams u = search page ->
  (Video.extractVideoInfo newURL url ptitle = None
   <-> extractVideoInfoFromPage page
       = Failure (js "No video ID found in URL"))
  /\ (forall video info,
        Video.extractVideoInfo newURL url ptitle = Some video ->
        extractVideoInfoFromPage page = Info info ->
        videoId info = Video.videoId video).
Proof.
  intros Hparse Hsearch.
  unfold Video.extractVideoInfo, extractVideoInfoFromPage.
  rewrite Hparse, Hsearch.
  destruct (Url.get (js "v") (search page)) as [id|];
    [|split; [split; reflexivity|discriminate]].
  destruct (negb (truthy id));
    [split; [split; reflexivity|discriminate]|].
  destruct (find_title page titleSelectors (Some [])) as [t|]; split;
    try (split; discriminate); try discriminate.
  intros video info [= <-] [= <-]. reflexivity.
Qed.

End WithParser.

(** The sample page and its URL: an instance. *)
Lemma content_agrees_with_popup_witness :
  (Video.extractVideoInfo Url.parse (href SamplePage.page) (js "x") = None
   <-> extractVideoInfoFromPage SamplePage.page
       = Failure (js "No video ID found in URL"))
  /\ (forall video info,
        Video.extractVideoInfo Url.parse (href SamplePage.page) (js "x")
        = Some video ->
        extractVideoInfoFromPage SamplePage.page = Info info ->
        videoId info = Video.videoId video).
Proof.
  apply (content_agrees_with_popup Url.parse (href SamplePage.page) (js "x")
           {| Url.hostname := js "www.youtube.com";
              Url.pathname := js "/watch";
              Url.searchParams := search SamplePage.page |}
           SamplePage.page);
    reflexivity.
Defined.

End ContentFacts.

(** ** The functions on sample inputs *)

Module Examples.
Import Popup.

Example parse_watch :
  Url.parse (js "https://www.youtube.com/watch?v=abc&t=10s#x")
  = Some {| Url.hostname := js "www.youtube.com";
            Url.pathname := js "/watch";
            Url.searchParams := [(js "v", js "abc"); (js "t", js "10s")] |}.
Proof. reflexivity. Qed.

Example parse_home :
  Url.parse (js "https://www.youtube.com")
  = Some {| Url.hostname := js "www.youtube.com"; Url.pathname := js "/";
            Url.searchParams := [] |}.
Proof. reflexivity. Qed.

Example not_a_video_page :
  Video.isYouTubeVideoPage Url.parse (js "https://www.youtube.com/shorts?v=abc")
  = false
  /\ Video.isYouTubeVideoPage Url.parse (js "https://youtube.com/watch?v=abc")
     = false
  /\ Video.isYouTubeVideoPage Url.parse (js "https://www.youtube.com/watch?t=1")
     = false
  /\ Video.isYouTubeVideoPage Url.parse (js "watch?v=abc") = false.
Proof. repeat split. Qed.

Example clean_plain :
  Title.cleanTitle (js "Induction explained - YouTube")
  = js "Induction explained".
Proof. reflexivity. Qed.

Example clean_tight :
  Title.cleanTitle (js "Induction explained-YouTube") = js "Induction explained".
Proof. reflexivity. Qed.

Example clean_other_case :
  Title.cleanTitle (js "Induction explained - youtube")
  = js "Induction explained - youtube".
Proof. reflexivity. Qed.

Example clean_not_at_end :
  Title.cleanTitle (js "Why - YouTube is slow") = js "Why - YouTube is slow".
Proof. reflexivity. Qed.

Example timestamps :
  Timestamp.formatTimestamp 3599 = js "59:59"
  /\ Timestamp.formatTimestamp 3600 = js "60:00"
  /\ Timestamp.formatTimestamp 7 = js "0:07".
Proof. repeat split. Qed.

(** Above 2^53 an integer is rounded to a double (here 2^53 + 1 to
    2^53), the numeral of a number has its shortest digits, in exponent
    notation from 10^21 on, and an integer too large for a double is
    [Infinity]. *)
Example timestamps_of_doubles :
  Timestamp.formatTimestamp 9007199254740993 = js "150119987579016:32"
  /\ Timestamp.formatTimestamp (60 * 2 ^ 60) = js "1152921504606847000:00"
  /\ Timestamp.formatTimestamp (60 * 2 ^ 70) = js "1.1805916207174113e+21:00"
  /\ Timestamp.formatTimestamp (2 ^ 1024) = js "Infinity:NaN".
Proof. repeat split; vm_compute; reflexivity. Qed.

Example sample_video : currentVideo (this Sample.watching) = Some Sample.video.
Proof. reflexivity. Qed.

Example sample_answers :
  userAnswers (this Sample.submitted) = <[1%nat := 0%nat]> {[0%nat := 2%nat]}.
Proof. vm_compute. reflexivity. Qed.

End Examples.
